(** * LifeLens web client: task polling, chat store, API client and chat page

    A shallow embedding of the TypeScript sources of the LifeLens frontend
    (task-status-poller.tsx, hooks/useMedia.ts, stores/chatStore.ts,
    stores/authStore.ts, lib/api.ts, pages/Chat.tsx) together with the
    properties the design document states about them.

    Conventions.
    - A JavaScript string is the list of its UTF-16 code units ([list N]).
    - A value of TypeScript type [unknown] (something that came out of
      [JSON.parse] or [response.json()]) is a [json] tree.
    - An optional field [f?: T] is an [option T]; [undefined] is [None].
    - A zustand store is a record; an action is a function from the store
      to the store, [set(partial)] rebuilding the record with the fields of
      [partial] replaced.
    - A function that may throw returns a [result]. *)

From Stdlib Require Import ZArith NArith Ascii String Strings.Byte Lia.
From stdpp Require Import base option list gmap.

Local Open Scope Z_scope.
Set Warnings "-register-all".

(** ** JavaScript strings *)

Abbreviation jsstring := (list N).

(** The code units of an ASCII literal of the source. *)
Definition js (s : string) : jsstring :=
  N_of_ascii <$> list_ascii_of_string s.

(** ECMAScript WhiteSpace and LineTerminator code units, the characters
    [String.prototype.trim] strips. *)
Definition isWhiteSpace (c : N) : bool :=
  match c with
  | 9 | 10 | 11 | 12 | 13 | 32 | 160 | 5760 | 8192 | 8193 | 8194 | 8195
  | 8196 | 8197 | 8198 | 8199 | 8200 | 8201 | 8202 | 8232 | 8233 | 8239
  | 8287 | 12288 | 65279 => true
  | _ => false
  end%N.

Fixpoint trimStart (s : jsstring) : jsstring :=
  match s with
  | c :: s' => if isWhiteSpace c then trimStart s' else s
  | [] => []
  end.

Definition trimEnd (s : jsstring) : jsstring :=
  reverse (trimStart (reverse s)).

Definition trim (s : jsstring) : jsstring := trimEnd (trimStart s).

Fixpoint startsWith (s p : jsstring) : bool :=
  match p, s with
  | [], _ => true
  | a :: p', b :: s' => bool_decide (a = b) && startsWith s' p'
  | _ :: _, [] => false
  end.

(** [s.slice(n)] for [0 <= n]. *)
Definition slice (n : nat) (s : jsstring) : jsstring := drop n s.

(** [s.split(sep)] for a separator of one code unit: always at least one
    piece, the last piece being what follows the last separator. *)
Fixpoint split (sep : N) (s : jsstring) : list jsstring :=
  match s with
  | [] => [[]]
  | c :: s' =>
      if bool_decide (c = sep) then [] :: split sep s'
      else match split sep s' with
           | piece :: pieces => (c :: piece) :: pieces
           | [] => [[c]]
           end
  end.

(** [Array.prototype.pop]: the array without its last element, and that
    element ([undefined] on an empty array). *)
Definition pop {A} (xs : list A) : list A * option A :=
  (removelast xs, last xs).

(** A string is falsy exactly when it is empty; [undefined] is falsy. *)
Definition truthyString (s : option jsstring) : bool :=
  match s with
  | Some (_ :: _) => true
  | _ => false
  end.

(** [a || b] on an optional string with a string default. *)
Definition orElse (a : option jsstring) (b : jsstring) : jsstring :=
  match a with
  | Some (c :: s) => c :: s
  | _ => b
  end.

(** ** JSON values (TypeScript [unknown])

    Numbers are kept to the integers; nothing below reads one but to test
    it against zero. *)

Inductive json : Type :=
| JNull
| JBool (b : bool)
| JNumber (n : Z)
| JString (s : jsstring)
| JArray (items : list json)
| JObject (fields : list (jsstring * json)).

(** Property read [v.key] on a non-null value: an own property of an
    object, [undefined] on anything else that came out of JSON. *)
Fixpoint assoc (key : jsstring) (fields : list (jsstring * json)) : option json :=
  match fields with
  | [] => None
  | (k, v) :: rest => if bool_decide (k = key) then Some v else assoc key rest
  end.

Definition truthy (v : json) : bool :=
  match v with
  | JNull => false
  | JBool b => b
  | JNumber n => negb (n =? 0)
  | JString s => truthyString (Some s)
  | JArray _ | JObject _ => true
  end.

(** ** Exceptions and results

    [ApiError] carries the status and the value handed to its constructor
    as message; [Rejection] is a promise of the platform rejected with
    some reason. *)

Inductive exn : Type :=
| ApiError (status : Z) (message : json)
| Error (message : jsstring)
| TypeError
| Rejection (reason : json).

Inductive result (A : Type) : Type :=
| Return (a : A)
| Throw (e : exn).
Arguments Return {A} a.
Arguments Throw {A} e.

(** ** lib/api-types.ts *)

Module ApiTypes.

(** [status] is declared as a union of four literals; at run time it is
    whatever string the server sent. *)
Record TaskStatus := {
  task_id : jsstring;
  status : jsstring;
  result : option jsstring
}.

End ApiTypes.

(** ** components/task-status-poller.tsx *)

Module TaskStatusPoller.
Import ApiTypes.

(** The [switch] of [checkTaskStatus]: the argument handed to
    [onStatusChange], or [None] when [taskStatus] is undefined and the
    callback is not called. *)
Definition checkTaskStatus (taskStatus : option TaskStatus) : option jsstring :=
  match taskStatus with
  | Some t =>
      Some (if bool_decide (status t = js "completed") then js "done"
            else if bool_decide (status t = js "failed") then js "failed"
            else if bool_decide (status t = js "pending") then js "pending"
            else js "processing")
  | None => None
  end.

End TaskStatusPoller.

(** ** hooks/useMedia.ts *)

Module UseMedia.
Import ApiTypes.

(** What [refetchInterval] returns: [false] or a number of milliseconds. *)
Inductive interval : Type :=
| Off
| Every (ms : Z).

(** [refetchInterval] of [useTaskStatus], on [query.state.data]. *)
Definition refetchInterval (data : option TaskStatus) : interval :=
  match data with
  | None => Off
  | Some d =>
      if bool_decide (status d = js "completed") || bool_decide (status d = js "failed")
      then Off
      else if bool_decide (status d = js "pending") || bool_decide (status d = js "processing")
      then Every 2000
      else Off
  end.

(** The interval timer TanStack Query runs for the query: when
    [refetchInterval] gives a number the query is fetched again after that
    delay and [data] becomes the answer; when it gives [false] no fetch is
    scheduled and [data] stays. *)
Definition tick (data : option TaskStatus) (answer : TaskStatus) : option TaskStatus :=
  match refetchInterval data with
  | Every _ => Some answer
  | Off => data
  end.

(** The data after the timer has run against a sequence of answers the
    server would give. *)
Definition poll (data : option TaskStatus) (answers : list TaskStatus) : option TaskStatus :=
  foldl tick data answers.

End UseMedia.

(** ** stores/authStore.ts *)

Module AuthStore.

Record AuthState := {
  token : option jsstring;
  isAuthenticated : bool
}.

Definition initial : AuthState :=
  {| token := None; isAuthenticated := false |}.

Definition setAuth (t : jsstring) (_ : AuthState) : AuthState :=
  {| token := Some t; isAuthenticated := true |}.

Definition logout (_ : AuthState) : AuthState :=
  {| token := None; isAuthenticated := false |}.

End AuthStore.

(** ** stores/chatStore.ts *)

Module ChatStore.

Inductive Role : Type :=
| user
| assistant.

Record FunctionCall := {
  name : jsstring;
  args : json
}.

Record Message := {
  id : Z;
  role : Role;
  content : jsstring;
  created_at : jsstring;
  function_calls : option (list FunctionCall)
}.

Record Conversation := {
  conversation_id : jsstring;
  title : option jsstring;
  conversation_created_at : jsstring;
  updated_at : option jsstring
}.

Record ChatState := {
  currentConversation : option Conversation;
  messages : list Message;
  isStreaming : bool
}.

Definition initial : ChatState :=
  {| currentConversation := None; messages := []; isStreaming := false |}.

(** [{ ...msg, content }] *)
Definition withContent (c : jsstring) (msg : Message) : Message :=
  {| id := id msg; role := role msg; content := c;
     created_at := created_at msg; function_calls := function_calls msg |}.

(** [{ ...msg, function_calls: [...(msg.function_calls || []), { name, args }] }] *)
Definition withFunctionCall (n : jsstring) (a : json) (msg : Message) : Message :=
  {| id := id msg; role := role msg; content := content msg;
     created_at := created_at msg;
     function_calls :=
       Some (default [] (function_calls msg) ++ [{| name := n; args := a |}]) |}.

(** The fields of a message that no action of the store rewrites. *)
Definition header (msg : Message) : Z * Role * jsstring :=
  (id msg, role msg, created_at msg).

(** [idx === state.messages.length - 1] *)
Definition isLastIndex (msgs : list Message) (idx : nat) : bool :=
  bool_decide (Z.of_nat idx = Z.of_nat (length msgs) - 1).

Definition setCurrentConversation (conversation : option Conversation)
    (state : ChatState) : ChatState :=
  {| currentConversation := conversation; messages := [];
     isStreaming := isStreaming state |}.

Definition setMessages (msgs : list Message) (state : ChatState) : ChatState :=
  {| currentConversation := currentConversation state; messages := msgs;
     isStreaming := isStreaming state |}.

Definition addMessage (message : Message) (state : ChatState) : ChatState :=
  setMessages (messages state ++ [message]) state.

Definition updateLastMessage (c : jsstring) (state : ChatState) : ChatState :=
  setMessages
    (imap (λ idx msg, if isLastIndex (messages state) idx
                      then withContent c msg else msg)
          (messages state))
    state.

Definition addFunctionCallToLastMessage (n : jsstring) (a : json)
    (state : ChatState) : ChatState :=
  setMessages
    (imap (λ idx msg, if isLastIndex (messages state) idx
                      then withFunctionCall n a msg else msg)
          (messages state))
    state.

Definition setStreaming (streaming : bool) (state : ChatState) : ChatState :=
  {| currentConversation := currentConversation state;
     messages := messages state; isStreaming := streaming |}.

End ChatStore.

(** ** lib/api.ts *)

Module Api.
Import AuthStore.

(** [RequestInit.body]: a [FormData], or the text [JSON.stringify(v)],
    kept as the value [v]. *)
Inductive RequestBody : Type :=
| FormData (files : list jsstring)
| Stringified (v : json).

Record RequestInit := {
  init_method : option jsstring;
  init_headers : gmap jsstring jsstring;
  init_body : option RequestBody
}.

Record Request := {
  url : jsstring;
  method : option jsstring;
  headers : gmap jsstring jsstring;
  body : option RequestBody
}.

(** [response.body]: the chunks [reader.read()] yields, then either
    [done] or a rejected read. *)
Record ReadableStream := {
  chunks : list (list byte);
  failure : option exn
}.

(** A [Response]: [json] is what [response.json()] resolves to, [None]
    when it rejects; [stream] is [response.body], [None] when null. *)
Record Response := {
  status : Z;
  json_ : option json;
  stream : option ReadableStream
}.

(** [response.ok]: the status is in the range 200-299. *)
Definition ok (response : Response) : bool :=
  bool_decide (200 ≤ status response ≤ 299).

(** The event records of the chat stream, as [sendMessage] types them;
    [type] is whatever string the server sent. *)
Record event := {
  type : jsstring;
  name : option jsstring;
  args : option (list (jsstring * json));
  content : option jsstring;
  message_id : option Z;
  message : option jsstring
}.

(** What the client takes from its platform: the build-time base URL, the
    network behind [fetch] (a rejected promise is a [Throw]), [JSON.parse]
    on the payload of a data line ([None]: it throws [SyntaxError]), and
    a [TextDecoder], a machine over bytes that [decode(value, {stream:
    true})] runs over the bytes of [value] without flushing. *)
Record Platform := {
  VITE_API_BASE_URL : option jsstring;
  fetch : Request → result Response;
  JSON_parse : jsstring → option event;
  TextDecoder : Type;
  newTextDecoder : TextDecoder;
  decodeByte : TextDecoder → byte → TextDecoder * jsstring
}.

(** What the client can change outside its stores. *)
Record World := {
  auth : AuthState;
  href : jsstring;
  sent : list Request
}.

Definition withAuth (a : AuthState) (w : World) : World :=
  {| auth := a; href := href w; sent := sent w |}.

Definition withHref (h : jsstring) (w : World) : World :=
  {| auth := auth w; href := h; sent := sent w |}.

Definition withSent (r : Request) (w : World) : World :=
  {| auth := auth w; href := href w; sent := sent w ++ [r] |}.

Section Client.
Context (env : Platform).

Definition API_BASE_URL : jsstring :=
  orElse (VITE_API_BASE_URL env) (js "http://localhost:8000").

(** [error.detail || "An error occurred"] on the parsed error body;
    reading a property of [null] throws. *)
Definition detailOr (error : json) (fallback : jsstring) : result json :=
  match error with
  | JNull => Throw TypeError
  | JObject fields =>
      match assoc (js "detail") fields with
      | Some d => Return (if truthy d then d else JString fallback)
      | None => Return (JString fallback)
      end
  | _ => Return (JString fallback)
  end.

(** [`Bearer ${token}`] *)
Definition bearer (token : option jsstring) : jsstring :=
  js "Bearer " ++ default (js "null") token.

(** The request [request] hands to [fetch]: the URL under the base URL
    and [{ ...options, headers }]. *)
Definition outgoing (endpoint : jsstring) (options : RequestInit)
    (w : World) : Request :=
  let token := token (auth w) in
  let headers := init_headers options in
  let headers :=
    if truthyString token
    then <[js "Authorization" := bearer token]> headers
    else headers in
  let headers :=
    match init_body options with
    | Some (FormData _) => headers
    | _ => <[js "Content-Type" := js "application/json"]> headers
    end in
  {| url := API_BASE_URL ++ endpoint; method := init_method options;
     headers := headers; body := init_body options |}.

Definition request (endpoint : jsstring) (options : RequestInit)
    (w : World) : World * result Response :=
  let req := outgoing endpoint options w in
  let w := withSent req w in
  match fetch env req with
  | Throw e => (w, Throw e)
  | Return response =>
      if bool_decide (status response = 401) then
        let w := withAuth (logout (auth w)) w in
        let w := withHref (js "/login") w in
        (w, Throw (ApiError 401 (JString (js "Unauthorized"))))
      else if negb (ok response) then
        let error :=
          match json_ response with
          | Some v => v
          | None => JObject [(js "detail", JString (js "An error occurred"))]
          end in
        match detailOr error (js "An error occurred") with
        | Return m => (w, Throw (ApiError (status response) m))
        | Throw e => (w, Throw e)
        end
      else (w, Return response)
  end.

(** [decoder.decode(value, { stream: true })] *)
Fixpoint decode (d : TextDecoder env) (value : list byte) : TextDecoder env * jsstring :=
  match value with
  | [] => (d, [])
  | b :: rest =>
      let '(d1, out1) := decodeByte env d b in
      let '(d2, out2) := decode d1 rest in
      (d2, out1 ++ out2)
  end.

Section Stream.
Context {H : Type} (onEvent : event → H → H).

(** The body of [for (const line of lines)]. *)
Definition handleLine (s : H) (line : jsstring) : H :=
  let trimmedLine := trim line in
  if startsWith trimmedLine (js "data: ") then
    let data := trim (slice 6 trimmedLine) in
    if bool_decide (data = js "[DONE]") then s
    else match JSON_parse env data with
         | Some parsed => onEvent parsed s
         | None => s
         end
  else s.

(** The [while (true)] loop over [reader.read()], until [done]. *)
Fixpoint readLoop (values : list (list byte)) (decoder : TextDecoder env)
    (buffer : jsstring) (s : H) : H :=
  match values with
  | [] => s
  | value :: rest =>
      let '(decoder, text) := decode decoder value in
      let buffer := buffer ++ text in
      let '(lines, popped) := pop (split 10 buffer) in
      let buffer := orElse popped [] in
      readLoop rest decoder buffer (foldl handleLine s lines)
  end.

Definition sendMessage (conversationId message : jsstring)
    (w : World) (s : H) : World * H * result unit :=
  let token := token (auth w) in
  let req :=
    {| url := API_BASE_URL ++ js "/api/chat/conversations/" ++ conversationId
              ++ js "/messages";
       method := Some (js "POST");
       headers := <[js "Content-Type" := js "application/json"]>
                    {[js "Authorization" := bearer token]};
       body := Some (Stringified (JObject [(js "message", JString message)])) |} in
  let w := withSent req w in
  match fetch env req with
  | Throw e => (w, s, Throw e)
  | Return response =>
      if negb (ok response) then
        (w, s, Throw (ApiError (status response) (JString (js "Failed to send message"))))
      else
        match stream response with
        | None => (w, s, Throw (Error (js "No response body")))
        | Some reader =>
            let s := readLoop (chunks reader) (newTextDecoder env) [] s in
            match failure reader with
            | None => (w, s, Return ())
            | Some e => (w, s, Throw e)
            end
        end
  end.

End Stream.

(** The events [sendMessage] hands to [onEvent], in order, for a body
    that arrives as [values]. *)
Definition delivered (values : list (list byte)) : list event :=
  readLoop (λ e log, log ++ [e]) values (newTextDecoder env) [] [].

End Client.

End Api.

(** ** pages/Chat.tsx *)

Module Chat.
Import ChatStore.

(** The component's state: the chat store, the text of the input box,
    and the world the API client acts on. *)
Record Page := {
  store : ChatState;
  input : jsstring;
  world : Api.World
}.

(** The readings of [Date.now()] and [new Date().toISOString()] taken for
    the user message and for the assistant message. *)
Record Clock := {
  userNow : Z;
  userISO : jsstring;
  assistantNow : Z;
  assistantISO : jsstring
}.

Definition apology : jsstring :=
  js "Sorry, I encountered an error. Please try again.".

(** The [onEvent] callback of [sendMessage]; its state is the local
    [fullContent] and the chat store. *)
Definition onEvent (event : Api.event) (h : jsstring * ChatState) : jsstring * ChatState :=
  let '(fullContent, st) := h in
  if bool_decide (Api.type event = js "text") then
    if truthyString (Api.content event) then
      let fullContent := fullContent ++ default [] (Api.content event) in
      (fullContent, updateLastMessage fullContent st)
    else (fullContent, st)
  else if bool_decide (Api.type event = js "function_call") then
    match Api.name event, Api.args event with
    | Some (c :: n), Some a =>
        (fullContent, addFunctionCallToLastMessage (c :: n) (JObject a) st)
    | _, _ => (fullContent, st)
    end
  else if bool_decide (Api.type event = js "done") then
    (fullContent, setStreaming false st)
  else if bool_decide (Api.type event = js "error") then
    (fullContent,
     setStreaming false (updateLastMessage (orElse (Api.message event) apology) st))
  else (fullContent, st).

(** The guard at the top of [sendMessage]:
    [!input.trim() || !currentConversation || isStreaming]. *)
Definition refused (page : Page) : bool :=
  negb (truthyString (Some (trim (input page))))
  || negb (bool_decide (is_Some (currentConversation (store page))))
  || isStreaming (store page).

Definition userMessage (clock : Clock) (text : jsstring) : Message :=
  {| id := userNow clock; role := user; content := text;
     created_at := userISO clock; function_calls := None |}.

Definition assistantMessage (clock : Clock) : Message :=
  {| id := assistantNow clock + 1; role := assistant; content := [];
     created_at := assistantISO clock; function_calls := None |}.

(** The store once [sendMessage] has added the user message, raised
    [isStreaming] and added the empty assistant message. *)
Definition opened (clock : Clock) (text : jsstring) (st : ChatState) : ChatState :=
  let st := addMessage (userMessage clock text) st in
  let st := setStreaming true st in
  addMessage (assistantMessage clock) st.

Section Page.
Context (env : Api.Platform).

(** [sendMessage]. [mutateAsync] settles as [api.sendMessage] does; the
    mutation's own callbacks touch the query cache and the toasts only. *)
Definition sendMessage (clock : Clock) (page : Page) : Page :=
  if refused page then page
  else
    match currentConversation (store page) with
    | None => page
    | Some conversation =>
        let st := opened clock (input page) (store page) in
        let messageContent := input page in
        let '(w, (fullContent, st), settled) :=
          Api.sendMessage env onEvent (conversation_id conversation)
            messageContent (world page) ([], st) in
        match settled with
        | Return _ => {| store := st; input := []; world := w |}
        | Throw error =>
            {| store := setStreaming false (updateLastMessage apology st);
               input := []; world := w |}
        end
    end.

End Page.

(** The store after [onEvent] has been called on each of [events]. *)
Definition handled (events : list Api.event) (h : jsstring * ChatState) : jsstring * ChatState :=
  foldl (λ h e, onEvent e h) h events.

(** The text a sequence of events carries: their contents one after the
    other, an absent content counting as empty. *)
Definition deltas (events : list Api.event) : jsstring :=
  concat ((λ e, default [] (Api.content e)) <$> events).

(** An event that is neither a text event with content nor an error
    event. *)
Definition quiet (e : Api.event) : Prop :=
  (Api.type e = js "text" → truthyString (Api.content e) = false) ∧
  Api.type e ≠ js "error".

End Chat.

(** ** The chat stream, line by line

    What [Api.sendMessage] is meant to deliver, stated on the decoded text
    of the whole body rather than on the loop over chunks. *)

Module Sse.

Section Lines.
Context (env : Api.Platform).

(** The text a decoder produces from the bytes of a whole body. *)
Definition decoded (bytes : list byte) : jsstring :=
  (Api.decode env (Api.newTextDecoder env) bytes).2.

(** The lines of a text that are closed by a line feed. *)
Definition completeLines (text : jsstring) : list jsstring :=
  removelast (split 10 text).

(** The payload of a data line: what follows "data: " once the line is
    trimmed, trimmed again. *)
Definition payload (line : jsstring) : option jsstring :=
  if startsWith (trim line) (js "data: ")
  then Some (trim (slice 6 (trim line)))
  else None.

(** The event a complete line stands for, if any. *)
Definition lineEvent (line : jsstring) : option Api.event :=
  match payload line with
  | Some data =>
      if bool_decide (data = js "[DONE]") then None
      else Api.JSON_parse env data
  | None => None
  end.

Definition expected (text : jsstring) : list Api.event :=
  omap lineEvent (completeLines text).

End Lines.

(** A scanner that cuts a text at line feeds from left to right, [cur]
    being the line read so far: the closed lines and the open rest. *)
Fixpoint scan (cur s : jsstring) : list jsstring * jsstring :=
  match s with
  | [] => ([], cur)
  | c :: s' =>
      if bool_decide (c = 10%N)
      then let '(ls, r) := scan [] s' in (cur :: ls, r)
      else scan (cur ++ [c]) s'
  end.

End Sse.

(** ** A platform to run the client on

    A UTF-8 [TextDecoder] after the Encoding standard, a [JSON.parse] that
    knows the payloads written below and throws on anything else, and a
    server that answers two URLs. *)

Module Sample.

Record Utf8 := {
  bomSeen : bool;
  codePoint : N;
  bytesSeen : N;
  bytesNeeded : N;
  lower : N;
  upper : N
}.

Definition fresh (seen : bool) : Utf8 :=
  {| bomSeen := seen; codePoint := 0; bytesSeen := 0; bytesNeeded := 0;
     lower := 128; upper := 191 |}.

(** A code point as UTF-16 code units. *)
Definition utf16 (cp : N) : jsstring :=
  if (cp <? 65536)%N then [cp]
  else [(55296 + (cp - 65536) / 1024)%N; (56320 + (cp - 65536) mod 1024)%N].

(** Emit a code point, dropping a byte order mark at the very start. *)
Definition emit (d : Utf8) (cp : N) : Utf8 * jsstring :=
  if negb (bomSeen d) && (cp =? 65279)%N then (fresh true, [])
  else (fresh true, utf16 cp).

(** The decoder's handler on a byte when no sequence is open. *)
Definition lead (d : Utf8) (b : N) : Utf8 * jsstring :=
  if (b <=? 127)%N then emit d b
  else if (194 <=? b)%N && (b <=? 223)%N then
    ({| bomSeen := bomSeen d; codePoint := N.land b 31; bytesSeen := 0;
        bytesNeeded := 1; lower := 128; upper := 191 |}, [])
  else if (224 <=? b)%N && (b <=? 239)%N then
    ({| bomSeen := bomSeen d; codePoint := N.land b 15; bytesSeen := 0;
        bytesNeeded := 2;
        lower := if (b =? 224)%N then 160 else 128;
        upper := if (b =? 237)%N then 159 else 191 |}, [])
  else if (240 <=? b)%N && (b <=? 244)%N then
    ({| bomSeen := bomSeen d; codePoint := N.land b 7; bytesSeen := 0;
        bytesNeeded := 3;
        lower := if (b =? 240)%N then 144 else 128;
        upper := if (b =? 244)%N then 143 else 191 |}, [])
  else emit d 65533.

Definition decodeByte (d : Utf8) (byte : byte) : Utf8 * jsstring :=
  let b := Byte.to_N byte in
  if (bytesNeeded d =? 0)%N then lead d b
  else if negb ((lower d <=? b)%N && (b <=? upper d)%N) then
    let '(d1, out1) := emit d 65533 in
    let '(d2, out2) := lead d1 b in
    (d2, out1 ++ out2)
  else
    let cp := N.lor (N.shiftl (codePoint d) 6) (N.land b 63) in
    if (bytesSeen d + 1 =? bytesNeeded d)%N then emit d cp
    else ({| bomSeen := bomSeen d; codePoint := cp;
             bytesSeen := bytesSeen d + 1; bytesNeeded := bytesNeeded d;
             lower := 128; upper := 191 |}, []).

(** The bytes of an ASCII literal. *)
Definition ascii (s : string) : list byte := list_byte_of_string s.

(** A JSON string literal: the text between double quotes. *)
Definition quoted (s : string) : jsstring := [34%N] ++ js s ++ [34%N].

Definition quotedBytes (s : string) : list byte :=
  [Byte.x22] ++ ascii s ++ [Byte.x22].

(** An object of two string members, as JSON text. *)
Definition object2 (k1 v1 k2 v2 : string) : jsstring :=
  js "{" ++ quoted k1 ++ js ":" ++ quoted v1 ++ js ","
  ++ quoted k2 ++ js ":" ++ quoted v2 ++ js "}".

Definition object2Bytes (k1 v1 k2 v2 : string) : list byte :=
  ascii "{" ++ quotedBytes k1 ++ ascii ":" ++ quotedBytes v1 ++ ascii ","
  ++ quotedBytes k2 ++ ascii ":" ++ quotedBytes v2 ++ ascii "}".

Definition textEvent (c : string) : Api.event :=
  {| Api.type := js "text"; Api.name := None; Api.args := None;
     Api.content := Some (js c); Api.message_id := None;
     Api.message := None |}.

Definition errorEvent (m : string) : Api.event :=
  {| Api.type := js "error"; Api.name := None; Api.args := None;
     Api.content := None; Api.message_id := None;
     Api.message := Some (js m) |}.

Definition toolEvent (t n : string) : Api.event :=
  {| Api.type := js t; Api.name := Some (js n);
     Api.args := Some [(js "query", JString (js "invoice"))];
     Api.content := None; Api.message_id := None; Api.message := None |}.

Definition JSON_parse (data : jsstring) : option Api.event :=
  if bool_decide (data = object2 "type" "text" "content" "Hel")
  then Some (textEvent "Hel")
  else if bool_decide (data = object2 "type" "text" "content" "lo")
  then Some (textEvent "lo")
  else if bool_decide (data = object2 "type" "error" "message" "step limit exceeded")
  then Some (errorEvent "step limit exceeded")
  else None.

(** The body of a chat answer: two text deltas, a line that is not JSON,
    the sentinel, and a last data line that no line feed closes. *)
Definition chatBody : list byte :=
  ascii "data: " ++ object2Bytes "type" "text" "content" "Hel" ++ [Byte.x0a]
  ++ ascii "data: {oops" ++ [Byte.x0a]
  ++ ascii "data: " ++ object2Bytes "type" "text" "content" "lo"
  ++ [Byte.x0d; Byte.x0a]
  ++ ascii "data: [DONE]" ++ [Byte.x0a]
  ++ ascii "data: " ++ object2Bytes "type" "text" "content" "Hel".

Definition base : jsstring := js "http://localhost:8000".

Definition fetch (req : Api.Request) : result Api.Response :=
  if bool_decide (Api.url req = base ++ js "/api/chat/conversations/c1/messages")
  then Return {| Api.status := 200; Api.json_ := None;
                 Api.stream := Some {| Api.chunks := [take 20 chatBody; drop 20 chatBody];
                                       Api.failure := None |} |}
  else if bool_decide (Api.url req = base ++ js "/api/media/list")
  then Return {| Api.status := 500; Api.json_ := Some JNull; Api.stream := None |}
  else if bool_decide (Api.url req = base ++ js "/api/media/status/t1")
  then Return {| Api.status := 401; Api.json_ := None; Api.stream := None |}
  else Throw TypeError.

Definition platform : Api.Platform :=
  {| Api.VITE_API_BASE_URL := None;
     Api.fetch := fetch;
     Api.JSON_parse := JSON_parse;
     Api.TextDecoder := Utf8;
     Api.newTextDecoder := fresh false;
     Api.decodeByte := decodeByte |}.

(** [api.get]'s call of [request]: no options. *)
Definition noOptions : Api.RequestInit :=
  {| Api.init_method := None; Api.init_headers := ∅; Api.init_body := None |}.

Definition signedIn : Api.World :=
  {| Api.auth := AuthStore.setAuth (js "tok") AuthStore.initial;
     Api.href := js "/dashboard/chat";
     Api.sent := [] |}.

Definition conversation : ChatStore.Conversation :=
  {| ChatStore.conversation_id := js "c1"; ChatStore.title := None;
     ChatStore.conversation_created_at := js "2025-01-01T00:00:00.000Z";
     ChatStore.updated_at := None |}.

Definition clock : Chat.Clock :=
  {| Chat.userNow := 1735689600000;
     Chat.userISO := js "2025-01-01T00:00:00.000Z";
     Chat.assistantNow := 1735689600000;
     Chat.assistantISO := js "2025-01-01T00:00:00.000Z" |}.

Definition page (text : string) (streaming : bool) : Chat.Page :=
  {| Chat.store :=
       {| ChatStore.currentConversation := Some conversation;
          ChatStore.messages := [];
          ChatStore.isStreaming := streaming |};
     Chat.input := js text;
     Chat.world := signedIn |}.

End Sample.

(** ** stores/mediaStore.ts *)

Module MediaStore.

Record MediaFile := {
  media_id : jsstring;
  file_name : jsstring;
  file_type : jsstring;
  file_size : Z;
  storage_url : jsstring;
  status : jsstring;
  created_at : jsstring;
  task_id : option jsstring
}.

Record MediaState := {
  files : list MediaFile;
  isLoading : bool
}.

Definition initial : MediaState := {| files := []; isLoading := false |}.

(** [{ ...file, status }] *)
Definition withStatus (s : jsstring) (file : MediaFile) : MediaFile :=
  {| media_id := media_id file; file_name := file_name file;
     file_type := file_type file; file_size := file_size file;
     storage_url := storage_url file; status := s;
     created_at := created_at file; task_id := task_id file |}.

Definition setFiles (fs : list MediaFile) (state : MediaState) : MediaState :=
  {| files := fs; isLoading := isLoading state |}.


(** [file.task_id === taskId ? { ...file, status } : file] over the files;
    a file without a task id is equal to no task id. *)
Definition updateFileStatus (taskId s : jsstring) (state : MediaState) : MediaState :=
  setFiles
    ((λ file, if bool_decide (task_id file = Some taskId)
              then withStatus s file else file) <$> files state)
    state.

Definition setLoading (loading : bool) (state : MediaState) : MediaState :=
  {| files := files state; isLoading := loading |}.

End MediaStore.

(** ** pages/Upload.tsx *)

Module Upload.

(** What the page reads of a [File]. *)
Record File := {
  name : jsstring;
  size : Z
}.

Record UploadingFile := {
  file : File;
  status : jsstring;
  progress : Z;
  taskId : option jsstring
}.

(** An entry of [response.media]. *)
Record UploadedMedia := {
  id : jsstring;
  file_name : jsstring;
  file_type : jsstring;
  file_size : Z;
  task_id : jsstring
}.

(** [files.map((file) => ({ file, status: "pending", progress: 0 }))] *)
Definition pendingFiles (files : list File) : list UploadingFile :=
  (λ f, {| file := f; status := js "pending"; progress := 0; taskId := None |})
    <$> files.

(** The updater of the interval timer started for the file at [index] of a
    batch of [n] new files. [updated[fileIndex]] is undefined when the
    index is negative or past the end. *)
Definition progressTick (n index : nat) (prev : list UploadingFile) : list UploadingFile :=
  let fileIndex := Z.of_nat (length prev) - Z.of_nat n + Z.of_nat index in
  if fileIndex <? 0 then prev
  else
    match prev !! Z.to_nat fileIndex with
    | Some uf =>
        if progress uf <? 90
        then <[Z.to_nat fileIndex :=
                 {| file := file uf; status := js "uploading";
                    progress := progress uf + 10; taskId := taskId uf |}]> prev
        else prev
    | None => prev
    end.

(** [idx >= prev.length - newFiles.length] *)
Definition inBatch (n : nat) (prev : list UploadingFile) (idx : nat) : bool :=
  Z.of_nat (length prev) - Z.of_nat n <=? Z.of_nat idx.

(** The updater run when the upload has answered: the entries of the
    batch become "processing" and take the task ids of [response.media],
    position by position. *)
Definition uploaded (n : nat) (media : list UploadedMedia)
    (prev : list UploadingFile) : list UploadingFile :=
  imap (λ idx uf,
          if inBatch n prev idx then
            let mediaFile :=
              media !! Z.to_nat (Z.of_nat idx
                                 - (Z.of_nat (length prev) - Z.of_nat n)) in
            {| file := file uf; status := js "processing"; progress := 100;
               taskId := task_id <$> mediaFile |}
          else uf)
       prev.

(** The updater run when the upload has thrown. *)
Definition failedUpload (n : nat) (prev : list UploadingFile) : list UploadingFile :=
  imap (λ idx uf,
          if inBatch n prev idx
          then {| file := file uf; status := js "failed"; progress := 100;
                  taskId := taskId uf |}
          else uf)
       prev.

(** The updater behind [onStatusChange] of the poller shown for the
    entry at [index]. *)
Definition statusChanged (index : nat) (s : jsstring)
    (prev : list UploadingFile) : list UploadingFile :=
  imap (λ idx uf,
          if bool_decide (idx = index)
          then {| file := file uf; status := s; progress := progress uf;
                  taskId := taskId uf |}
          else uf)
       prev.

(** [handleFiles], with the outcome of [uploadMutation.mutateAsync] and
    no other update of the list in between. *)
Definition handleFiles (outcome : result (list UploadedMedia))
    (files : list File) (prev : list UploadingFile) : list UploadingFile :=
  let newFiles := pendingFiles files in
  let prev := prev ++ newFiles in
  match outcome with
  | Return media => uploaded (length newFiles) media prev
  | Throw _ => failedUpload (length newFiles) prev
  end.

(** What the poller of an entry does to the list when the query holds
    [taskStatus]: nothing without data, [onStatusChange] otherwise. *)
Definition polled (index : nat) (taskStatus : option ApiTypes.TaskStatus)
    (prev : list UploadingFile) : list UploadingFile :=
  match TaskStatusPoller.checkTaskStatus taskStatus with
  | Some s => statusChanged index s prev
  | None => prev
  end.

End Upload.

(** ** pages/Library.tsx *)

Module Library.

(** [s.includes(p)] *)
Fixpoint includes (s p : jsstring) : bool :=
  startsWith s p ||
  match s with
  | [] => false
  | _ :: s' => includes s' p
  end.

Inductive Icon : Type :=
| Image
| FileAudio
| FileText
| File.

Definition getFileIcon (fileType : jsstring) : Icon :=
  if startsWith fileType (js "image/") then Image
  else if startsWith fileType (js "audio/") then FileAudio
  else if includes fileType (js "pdf") || includes fileType (js "document")
  then FileText
  else File.

Definition getFileTypeColor (fileType : jsstring) : jsstring :=
  if startsWith fileType (js "image/") then js "text-blue-500"
  else if startsWith fileType (js "audio/") then js "text-purple-500"
  else if includes fileType (js "pdf") then js "text-red-500"
  else js "text-gray-500".

End Library.

(** ** lib/api.ts: the calls built on [request] *)

Module ApiCalls.
Import Api.

(** The argument of [post]: a [FormData] or a value to stringify. *)
Inductive PostData : Type :=
| Form (files : list jsstring)
| Value (v : json).

Section Calls.
Context (env : Platform).
(** What [response.json()] rejects with when the body is not JSON. *)
Context (bodyError : exn).

(** [response.json()] *)
Definition bodyJson (response : Response) : result json :=
  match json_ response with
  | Some v => Return v
  | None => Throw bodyError
  end.

Definition noOptions : RequestInit :=
  {| init_method := None; init_headers := ∅; init_body := None |}.

Definition get (endpoint : jsstring) (w : World) : World * result json :=
  match request env endpoint noOptions w with
  | (w, Return response) => (w, bodyJson response)
  | (w, Throw e) => (w, Throw e)
  end.

(** [data instanceof FormData ? data : JSON.stringify(data)];
    [JSON.stringify(undefined)] is [undefined]. *)
Definition postBody (data : option PostData) : option RequestBody :=
  match data with
  | Some (Form files) => Some (FormData files)
  | Some (Value v) => Some (Stringified v)
  | None => None
  end.

Definition post (endpoint : jsstring) (data : option PostData)
    (w : World) : World * result json :=
  match request env endpoint
          {| init_method := Some (js "POST"); init_headers := ∅;
             init_body := postBody data |} w with
  | (w, Return response) => (w, bodyJson response)
  | (w, Throw e) => (w, Throw e)
  end.

Definition delete (endpoint : jsstring) (w : World) : World * result unit :=
  match request env endpoint
          {| init_method := Some (js "DELETE"); init_headers := ∅;
             init_body := None |} w with
  | (w, Return _) => (w, Return ())
  | (w, Throw e) => (w, Throw e)
  end.

Definition signup (email password name : jsstring) :=
  post (js "/auth/signup")
    (Some (Value (JObject [(js "email", JString email);
                           (js "password", JString password);
                           (js "name", JString name)]))).

Definition login (email password : jsstring) :=
  post (js "/auth/login")
    (Some (Value (JObject [(js "email", JString email);
                           (js "password", JString password)]))).

Definition uploadMedia (files : list jsstring) :=
  post (js "/api/media/upload") (Some (Form files)).

Definition listMedia := get (js "/api/media/list").

Definition getTaskStatus (taskId : jsstring) :=
  get (js "/api/media/status/" ++ taskId).

Definition createConversation := post (js "/api/chat/conversations") None.

Definition listConversations := get (js "/api/chat/conversations").

Definition getMessages (conversationId : jsstring) :=
  get (js "/api/chat/conversations/" ++ conversationId ++ js "/messages").

Definition deleteConversation (conversationId : jsstring) :=
  delete (js "/api/chat/conversations/" ++ conversationId).

End Calls.

End ApiCalls.

(** ** components/dashboard-layout.tsx *)

Module DashboardLayout.
Import ChatStore.

(** The state the handlers of the layout act on: the chat store, the
    delete dialog, the route of the router and the world of the client. *)
Record Layout := {
  store : ChatState;
  deleteDialogOpen : bool;
  conversationToDelete : option Conversation;
  route : jsstring;
  world : Api.World
}.

Definition handleLogout (l : Layout) : Layout :=
  {| store := store l; deleteDialogOpen := deleteDialogOpen l;
     conversationToDelete := conversationToDelete l; route := route l;
     world := Api.withHref (js "/login")
                (Api.withAuth (AuthStore.logout (Api.auth (world l))) (world l)) |}.

Definition handleSelectConversation (conv : Conversation) (l : Layout) : Layout :=
  {| store := setCurrentConversation (Some conv) (store l);
     deleteDialogOpen := deleteDialogOpen l;
     conversationToDelete := conversationToDelete l;
     route := js "/dashboard/chat"; world := world l |}.

Definition handleDeleteConversation (conversation : Conversation) (l : Layout) : Layout :=
  {| store := store l; deleteDialogOpen := true;
     conversationToDelete := Some conversation; route := route l;
     world := world l |}.

Definition cancelDeleteConversation (l : Layout) : Layout :=
  {| store := store l; deleteDialogOpen := false;
     conversationToDelete := None; route := route l; world := world l |}.

(** [currentConversation?.id === conversationToDelete.id] *)
Definition isCurrent (current : option Conversation) (c : Conversation) : bool :=
  match current with
  | Some cur => bool_decide (conversation_id cur = conversation_id c)
  | None => false
  end.

Section Handlers.
Context (env : Api.Platform) (bodyError : exn).

(** [confirmDeleteConversation]: the [finally] block runs on both ways
    out of the [try]; a thrown error goes on to the caller. *)
Definition confirmDeleteConversation (l : Layout) : Layout * result unit :=
  match conversationToDelete l with
  | None => (l, Return ())
  | Some c =>
      match ApiCalls.deleteConversation env (conversation_id c) (world l) with
      | (w, Return _) =>
          ({| store := if isCurrent (currentConversation (store l)) c
                       then setCurrentConversation None (store l)
                       else store l;
              deleteDialogOpen := false; conversationToDelete := None;
              route := route l; world := w |}, Return ())
      | (w, Throw e) =>
          ({| store := store l; deleteDialogOpen := false;
              conversationToDelete := None; route := route l; world := w |},
           Throw e)
      end
  end.

(** [handleCreateConversation], [newConv] being what the answer is read
    as; nothing after the [await] runs when it throws. *)
Definition handleCreateConversation (read : json → Conversation)
    (l : Layout) : Layout * result unit :=
  match ApiCalls.createConversation env bodyError (world l) with
  | (w, Return v) =>
      ({| store := setCurrentConversation (Some (read v)) (store l);
          deleteDialogOpen := deleteDialogOpen l;
          conversationToDelete := conversationToDelete l;
          route := js "/dashboard/chat"; world := w |}, Return ())
  | (w, Throw e) =>
      ({| store := store l; deleteDialogOpen := deleteDialogOpen l;
          conversationToDelete := conversationToDelete l;
          route := route l; world := w |}, Throw e)
  end.

End Handlers.

End DashboardLayout.

(** ** What a stream of events amounts to *)

Module Transcript.

Definition isText (e : Api.event) : bool :=
  bool_decide (Api.type e = js "text").

(** The text of the text events of a stream. *)
Definition texts (events : list Api.event) : jsstring :=
  Chat.deltas (filter (λ e, isText e = true) events).

(** The invocation a function-call event records, if it carries a name
    and args. *)
Definition call (e : Api.event) : option ChatStore.FunctionCall :=
  if bool_decide (Api.type e = js "function_call") then
    match Api.name e, Api.args e with
    | Some (c :: n), Some a =>
        Some {| ChatStore.name := c :: n; ChatStore.args := JObject a |}
    | _, _ => None
    end
  else None.

Definition calls (events : list Api.event) : list ChatStore.FunctionCall :=
  omap call events.

(** An event that ends the stream for the page: "done" or "error". *)
Definition ends (e : Api.event) : bool :=
  bool_decide (Api.type e = js "done") || bool_decide (Api.type e = js "error").

(** A message with the given content and with the given invocations
    added to its function calls. *)
Definition recorded (c : jsstring) (cs : list ChatStore.FunctionCall)
    (x : ChatStore.Message) : ChatStore.Message :=
  {| ChatStore.id := ChatStore.id x; ChatStore.role := ChatStore.role x;
     ChatStore.content := c; ChatStore.created_at := ChatStore.created_at x;
     ChatStore.function_calls :=
       match cs with
       | [] => ChatStore.function_calls x
       | _ :: _ => Some (default [] (ChatStore.function_calls x) ++ cs)
       end |}.

(** Two stores with the same conversation, the same messages but for the
    last one, and the same header on every message. *)
Definition framed (st st' : ChatStore.ChatState) : Prop :=
  ChatStore.currentConversation st' = ChatStore.currentConversation st ∧
  ChatStore.header <$> ChatStore.messages st'
  = ChatStore.header <$> ChatStore.messages st ∧
  removelast (ChatStore.messages st') = removelast (ChatStore.messages st).

(** The request [api.sendMessage] hands to [fetch]. *)
Definition messageRequest (env : Api.Platform)
    (conversationId message : jsstring) (w : Api.World) : Api.Request :=
  {| Api.url := Api.API_BASE_URL env ++ js "/api/chat/conversations/"
                ++ conversationId ++ js "/messages";
     Api.method := Some (js "POST");
     Api.headers := <[js "Content-Type" := js "application/json"]>
                      {[js "Authorization" :=
                          Api.bearer (AuthStore.token (Api.auth w))]};
     Api.body := Some (Api.Stringified
                         (JObject [(js "message", JString message)])) |}.

End Transcript.

(** ** A second server to run the calls on

    It answers the status of task t1 with JSON, the deletion of
    conversation c1 with 204 and no body, the list of media with 401, and
    nothing else. *)

Module Demo.

Definition taskBody : json :=
  JObject [(js "task_id", JString (js "t1"));
           (js "status", JString (js "completed"))].

Definition fetch (req : Api.Request) : result Api.Response :=
  if bool_decide (Api.url req = Sample.base ++ js "/api/media/status/t1")
  then Return {| Api.status := 200; Api.json_ := Some taskBody;
                 Api.stream := None |}
  else if bool_decide (Api.url req = Sample.base ++ js "/api/chat/conversations/c1")
  then Return {| Api.status := 204; Api.json_ := None; Api.stream := None |}
  else if bool_decide (Api.url req = Sample.base ++ js "/api/media/list")
  then Return {| Api.status := 401; Api.json_ := None; Api.stream := None |}
  else Throw TypeError.

Definition platform : Api.Platform :=
  {| Api.VITE_API_BASE_URL := None;
     Api.fetch := fetch;
     Api.JSON_parse := Sample.JSON_parse;
     Api.TextDecoder := Sample.Utf8;
     Api.newTextDecoder := Sample.fresh false;
     Api.decodeByte := Sample.decodeByte |}.

(** [SyntaxError], as [response.json()] rejects with it. *)
Definition syntaxError : exn := Error (js "Unexpected end of JSON input").

Definition layout (current pending : option ChatStore.Conversation) : DashboardLayout.Layout :=
  {| DashboardLayout.store :=
       {| ChatStore.currentConversation := current;
          ChatStore.messages :=
            [Chat.userMessage Sample.clock (js "hi")];
          ChatStore.isStreaming := false |};
     DashboardLayout.deleteDialogOpen := true;
     DashboardLayout.conversationToDelete := pending;
     DashboardLayout.route := js "/dashboard/chat";
     DashboardLayout.world := Sample.signedIn |}.

End Demo.

(** ** The chat page while an answer is read *)

Module Midstream.
Import ChatStore Chat.

(** [setInput(text)]: what the user types into the input box. *)
Definition typed (text : jsstring) (page : Page) : Page :=
  {| store := store page; input := text; world := world page |}.

Section Reading.
Context (env : Api.Platform).

(** The page while an accepted [sendMessage] is suspended in
    [await reader.read()], the chunks [values] having been read: the two
    messages are added, the input is cleared, the request is sent, and the
    loop has run over the chunks read so far. The request is in flight
    until the reader reports the end or fails. *)
Definition reading (clock : Clock) (page : Page)
    (values : list (list byte)) : Page :=
  match currentConversation (store page) with
  | Some conversation =>
      {| store :=
           (Api.readLoop env onEvent values (Api.newTextDecoder env) []
              ([], opened clock (input page) (store page))).2;
         input := [];
         world :=
           Api.withSent
             (Transcript.messageRequest env (conversation_id conversation)
                (input page) (world page))
             (world page) |}
  | None => page
  end.

End Reading.

End Midstream.

(** ** A server that goes on after an error event

    Its answer to a chat message is an error event in a first chunk and a
    text delta in a second one. *)

Module Overlap.

Definition first : list byte :=
  Sample.ascii "data: "
  ++ Sample.object2Bytes "type" "error" "message" "step limit exceeded"
  ++ [Byte.x0a].

Definition second : list byte :=
  Sample.ascii "data: " ++ Sample.object2Bytes "type" "text" "content" "lo"
  ++ [Byte.x0a].

Definition answer : Api.Response :=
  {| Api.status := 200; Api.json_ := None;
     Api.stream := Some {| Api.chunks := [first; second];
                           Api.failure := None |} |}.

Definition fetch (req : Api.Request) : result Api.Response :=
  if bool_decide (Api.url req
                  = Sample.base ++ js "/api/chat/conversations/c1/messages")
  then Return answer
  else Throw TypeError.

Definition platform : Api.Platform :=
  {| Api.VITE_API_BASE_URL := None;
     Api.fetch := fetch;
     Api.JSON_parse := Sample.JSON_parse;
     Api.TextDecoder := Sample.Utf8;
     Api.newTextDecoder := Sample.fresh false;
     Api.decodeByte := Sample.decodeByte |}.

End Overlap.

(** * Properties *)

(** ** Task status: the poller's mapping and the refetch interval *)

Section TaskPolling.
Import ApiTypes TaskStatusPoller UseMedia.

(** C1. [checkTaskStatus] reports "done" for the backend status
    "completed", "failed" for "failed", "pending" for "pending", and
    "processing" for every other status string, recognised or not. *)
Theorem checkTaskStatus_mapping (t : TaskStatus) :
  (status t = js "completed" → checkTaskStatus (Some t) = Some (js "done")) ∧
  (status t = js "failed" → checkTaskStatus (Some t) = Some (js "failed")) ∧
  (status t = js "pending" → checkTaskStatus (Some t) = Some (js "pending")) ∧
  (status t ≠ js "completed" → status t ≠ js "failed" →
   status t ≠ js "pending" →
   checkTaskStatus (Some t) = Some (js "processing")).
Proof.
  unfold checkTaskStatus.
  split; [|split; [|split]].
  - intros ->. reflexivity.
  - intros ->. reflexivity.
  - intros ->. reflexivity.
  - intros N1 N2 N3. rewrite !bool_decide_eq_false_2 by assumption.
    reflexivity.
Qed.

Lemma checkTaskStatus_mapping_witness :
  checkTaskStatus
    (Some {| task_id := js "t1"; status := js "corrupt"; result := None |})
  = Some (js "processing").
Proof.
  apply (proj2 (proj2 (proj2 (checkTaskStatus_mapping
    {| task_id := js "t1"; status := js "corrupt"; result := None |}))));
    vm_compute; discriminate.
Defined.

(** Two different literals cannot both be the value of one string. *)
Ltac literal_clash :=
  match goal with
  | H1 : ?x = js _, H2 : ?x = js _ |- _ =>
      rewrite H1 in H2; vm_compute in H2; discriminate H2
  end.

(** [refetchInterval] asks for another fetch exactly on the two statuses
    it names. *)
Lemma refetchInterval_every (d : TaskStatus) (ms : Z) :
  refetchInterval (Some d) = Every ms ↔
  ms = 2000 ∧ (status d = js "pending" ∨ status d = js "processing").
Proof.
  unfold refetchInterval.
  split.
  - repeat case_bool_decide; simpl; intros E; try discriminate E;
      injection E as <-; auto.
  - intros [-> [E | E]]; rewrite E; reflexivity.
Qed.

Lemma refetchInterval_off (d : TaskStatus) :
  refetchInterval (Some d) = Off ↔
  status d ≠ js "pending" ∧ status d ≠ js "processing".
Proof.
  unfold refetchInterval.
  split.
  - repeat case_bool_decide; simpl; intros E; try discriminate E;
      split; intros E'; solve [congruence | literal_clash].
  - intros [E1 E2]. repeat case_bool_decide; simpl; congruence.
Qed.

(** Once the timer is off the data never changes again. *)
Lemma poll_off (data : option TaskStatus) (answers : list TaskStatus) :
  refetchInterval data = Off → poll data answers = data.
Proof.
  intros E. unfold poll.
  induction answers as [|a answers IH]; simpl; [reflexivity|].
  unfold tick at 2. rewrite E. exact IH.
Qed.

(** C2, as stated, fails: a status outside the four known ones is not
    terminal, yet the interval function stops polling on it. *)
Lemma refetchInterval_not_all_nonterminal :
  ¬ (∀ d : TaskStatus,
       refetchInterval (Some d) = Every 2000 ↔
       (status d ≠ js "completed" ∧ status d ≠ js "failed")).
Proof.
  intros claim.
  pose (d := {| task_id := js "t1"; status := js "queued"; result := None |}).
  destruct (claim d) as [_ back].
  assert (E : refetchInterval (Some d) = Every 2000).
  { apply back. split; vm_compute; discriminate. }
  vm_compute in E. discriminate E.
Qed.

(** C2, amended. [refetchInterval] returns 2000 ms exactly when the
    fetched status is "pending" or "processing" and returns false on every
    other status: the terminal "completed" and "failed", and any
    unrecognised one. Once it has returned false the timer fetches nothing
    more, so the data, and with it the answer false, stay for good. *)
Theorem refetchInterval_polls_pending_and_processing
    (d : TaskStatus) (answers : list TaskStatus) :
  (refetchInterval (Some d) = Every 2000 ↔
   status d = js "pending" ∨ status d = js "processing") ∧
  (refetchInterval (Some d) = Off ↔
   status d ≠ js "pending" ∧ status d ≠ js "processing") ∧
  (status d = js "completed" ∨ status d = js "failed" →
   refetchInterval (Some d) = Off) ∧
  (refetchInterval (Some d) = Off →
   poll (Some d) answers = Some d ∧
   refetchInterval (poll (Some d) answers) = Off).
Proof.
  split; [|split; [|split]].
  - rewrite refetchInterval_every. intuition.
  - apply refetchInterval_off.
  - intros [E | E]; apply refetchInterval_off; rewrite E;
      split; vm_compute; discriminate.
  - intros E. rewrite (poll_off _ answers E). auto.
Qed.

Lemma refetchInterval_polls_pending_and_processing_witness :
  let d := {| task_id := js "t1"; status := js "completed"; result := None |} in
  let later := {| task_id := js "t1"; status := js "pending"; result := None |} in
  refetchInterval (Some d) = Off ∧
  poll (Some d) [later; later] = Some d.
Proof.
  intros d later.
  pose proof (refetchInterval_polls_pending_and_processing d [later; later])
    as (_ & _ & terminal & stays).
  assert (E : refetchInterval (Some d) = Off).
  { apply terminal. left. reflexivity. }
  split; [exact E | exact (proj1 (stays E))].
Defined.

End TaskPolling.

(** ** The chat store *)

Section Store.
Import ChatStore.

Lemma isLastIndex_spec (msgs : list Message) (idx : nat) :
  isLastIndex msgs idx = bool_decide (S idx = length msgs).
Proof.
  unfold isLastIndex. apply bool_decide_ext. lia.
Qed.

(** Mapping over a list with a function that changes the last index only
    rewrites the last element. *)
Lemma imap_last_snoc (f : Message → Message) (init : list Message) (x : Message) :
  imap (λ idx msg, if isLastIndex (init ++ [x]) idx then f msg else msg)
       (init ++ [x])
  = init ++ [f x].
Proof.
  rewrite imap_app. f_equal.
  - transitivity (imap (λ _ (msg : Message), msg) init).
    + apply imap_ext. intros i y Hi. apply lookup_lt_Some in Hi.
      rewrite isLastIndex_spec, length_app. simpl.
      rewrite bool_decide_eq_false_2 by lia. reflexivity.
    + clear. induction init as [|a l IH]; simpl; [reflexivity|].
      f_equal. exact IH.
  - simpl. rewrite isLastIndex_spec, length_app. simpl.
    rewrite bool_decide_eq_true_2 by lia. reflexivity.
Qed.

Lemma updateLastMessage_snoc (c : jsstring) (st : ChatState)
    (init : list Message) (x : Message) :
  messages st = init ++ [x] →
  messages (updateLastMessage c st) = init ++ [withContent c x].
Proof.
  intros E. unfold updateLastMessage. simpl. rewrite E.
  apply imap_last_snoc.
Qed.

Lemma addFunctionCallToLastMessage_snoc (n : jsstring) (a : json)
    (st : ChatState) (init : list Message) (x : Message) :
  messages st = init ++ [x] →
  messages (addFunctionCallToLastMessage n a st)
  = init ++ [withFunctionCall n a x].
Proof.
  intros E. unfold addFunctionCallToLastMessage. simpl. rewrite E.
  apply imap_last_snoc.
Qed.



End Store.

(** ** The chat stream: the loop over chunks against the text as a whole *)

Section Scanner.
Import Sse.

Lemma split_not_nil (sep : N) (s : jsstring) : split sep s ≠ [].
Proof.
  destruct s as [|c s]; simpl; [discriminate|].
  case_bool_decide; [discriminate|].
  destruct (split sep s); discriminate.
Qed.

Lemma split_no_separator (p : jsstring) : (10%N) ∉ p → split 10 p = [p].
Proof.
  induction p as [|c p IH]; intros Hp; [reflexivity|].
  apply not_elem_of_cons in Hp as [Hc Hp]. simpl.
  rewrite bool_decide_eq_false_2 by congruence.
  rewrite (IH Hp). reflexivity.
Qed.

Lemma split_at_separator (p s : jsstring) :
  (10%N) ∉ p → split 10 (p ++ 10%N :: s) = p :: split 10 s.
Proof.
  induction p as [|c p IH]; intros Hp; simpl.
  - reflexivity.
  - apply not_elem_of_cons in Hp as [Hc Hp].
    rewrite bool_decide_eq_false_2 by congruence.
    rewrite (IH Hp). reflexivity.
Qed.

Lemma scan_rest_no_separator (s cur : jsstring) :
  (10%N) ∉ cur → (10%N) ∉ (scan cur s).2.
Proof.
  revert cur. induction s as [|c s IH]; intros cur Hcur; simpl; [exact Hcur|].
  case_bool_decide as Hc.
  - specialize (IH [] (not_elem_of_nil _)).
    destruct (scan [] s) as [ls r]. exact IH.
  - apply IH. rewrite elem_of_app, list_elem_of_singleton.
    intros [? | ?]; [tauto | congruence].
Qed.

(** [split] is the scanner: the closed lines, then the open rest. *)
Lemma split_scan (s cur : jsstring) :
  (10%N) ∉ cur →
  split 10 (cur ++ s) = (scan cur s).1 ++ [(scan cur s).2].
Proof.
  revert cur. induction s as [|c s IH]; intros cur Hcur; simpl.
  - rewrite app_nil_r. apply split_no_separator, Hcur.
  - case_bool_decide as Hc.
    + subst c. rewrite (split_at_separator _ _ Hcur).
      specialize (IH [] (not_elem_of_nil _)). simpl in IH.
      destruct (scan [] s) as [ls r]. simpl in *. rewrite IH. reflexivity.
    + rewrite (cons_middle c cur s), app_assoc. apply IH.
      rewrite elem_of_app, list_elem_of_singleton.
      intros [? | ?]; [tauto | congruence].
Qed.

(** Scanning a text in two parts, the second from where the first stopped. *)
Lemma scan_app (a b cur : jsstring) :
  scan cur (a ++ b)
  = ((scan cur a).1 ++ (scan (scan cur a).2 b).1, (scan (scan cur a).2 b).2).
Proof.
  revert cur. induction a as [|c a IH]; intros cur; simpl.
  - destruct (scan cur b); reflexivity.
  - case_bool_decide as Hc.
    + rewrite (IH []). destruct (scan [] a) as [ls r]. reflexivity.
    + apply IH.
Qed.

Lemma completeLines_scan (text : jsstring) :
  completeLines text = (scan [] text).1.
Proof.
  unfold completeLines.
  rewrite <- (app_nil_l text) at 1.
  rewrite (split_scan text [] (not_elem_of_nil _)).
  apply removelast_last.
Qed.

Lemma orElse_some_nil (r : jsstring) : orElse (Some r) [] = r.
Proof. destruct r; reflexivity. Qed.

End Scanner.

Section Stream.
Import Sse.
Context (env : Api.Platform).

Lemma decode_app (a b : list byte) (d : Api.TextDecoder env) :
  Api.decode env d (a ++ b)
  = ((Api.decode env (Api.decode env d a).1 b).1,
     (Api.decode env d a).2 ++ (Api.decode env (Api.decode env d a).1 b).2).
Proof.
  revert d. induction a as [|x a IH]; intros d; simpl.
  - destruct (Api.decode env d b); reflexivity.
  - destruct (Api.decodeByte env d x) as [d1 out1].
    rewrite (IH d1).
    destruct (Api.decode env d1 a) as [d2 out2]. simpl.
    destruct (Api.decode env d2 b) as [d3 out3]. simpl.
    rewrite app_assoc. reflexivity.
Qed.

(** The loop over chunks handles, in order, the lines the scanner closes
    in the text of all the chunks, whatever the chunks are. *)
Lemma readLoop_scan {H : Type} (onEvent : Api.event → H → H)
    (values : list (list byte)) (d : Api.TextDecoder env)
    (buffer : jsstring) (s : H) :
  (10%N) ∉ buffer →
  Api.readLoop env onEvent values d buffer s
  = foldl (Api.handleLine env onEvent) s
      (scan buffer (Api.decode env d (concat values)).2).1.
Proof.
  revert d buffer s.
  induction values as [|value rest IH]; intros d buffer s Hbuf; simpl.
  - reflexivity.
  - rewrite decode_app.
    destruct (Api.decode env d value) as [d1 text] eqn:Ed. simpl.
    rewrite (split_scan text buffer Hbuf), removelast_last, last_snoc.
    rewrite orElse_some_nil.
    rewrite IH by (apply scan_rest_no_separator, Hbuf).
    rewrite scan_app. simpl. rewrite foldl_app. reflexivity.
Qed.

(** Handling a line is calling the callback on the event of the line,
    if it has one. *)
Lemma handleLine_lineEvent {H : Type} (onEvent : Api.event → H → H)
    (line : jsstring) (s : H) :
  Api.handleLine env onEvent s line
  = match lineEvent env line with
    | Some e => onEvent e s
    | None => s
    end.
Proof.
  unfold Api.handleLine, lineEvent, payload.
  destruct (startsWith (trim line) (js "data: ")); [|reflexivity].
  case_bool_decide; reflexivity.
Qed.

Lemma foldl_handleLine {H : Type} (onEvent : Api.event → H → H)
    (lines : list jsstring) (s : H) :
  foldl (Api.handleLine env onEvent) s lines
  = foldl (λ s e, onEvent e s) s (omap (lineEvent env) lines).
Proof.
  revert s. induction lines as [|line lines IH]; intros s; simpl.
  - reflexivity.
  - rewrite handleLine_lineEvent, IH.
    destruct (lineEvent env line); reflexivity.
Qed.

Lemma foldl_log (events : list Api.event) (log : list Api.event) :
  foldl (λ log e, log ++ [e]) log events = log ++ events.
Proof.
  revert log. induction events as [|e events IH]; intros log; simpl.
  - rewrite app_nil_r. reflexivity.
  - rewrite IH, <- app_assoc. reflexivity.
Qed.

Lemma delivered_expected (values : list (list byte)) :
  Api.delivered env values = expected env (decoded env (concat values)).
Proof.
  unfold Api.delivered, expected, decoded.
  rewrite readLoop_scan by apply not_elem_of_nil.
  rewrite foldl_handleLine, foldl_log, completeLines_scan. reflexivity.
Qed.

(** What [sendMessage] does to the state of its callback is what calling
    the callback on the delivered events does. *)
Lemma readLoop_delivered {H : Type} (onEvent : Api.event → H → H)
    (values : list (list byte)) (s : H) :
  Api.readLoop env onEvent values (Api.newTextDecoder env) [] s
  = foldl (λ s e, onEvent e s) s (Api.delivered env values).
Proof.
  rewrite delivered_expected.
  rewrite readLoop_scan by apply not_elem_of_nil.
  rewrite foldl_handleLine.
  unfold expected, decoded. rewrite completeLines_scan. reflexivity.
Qed.

End Stream.

Section StreamClaims.
Import Sse.

Lemma scan_no_separator (tail cur : jsstring) :
  (10%N) ∉ tail → scan cur tail = ([], cur ++ tail).
Proof.
  revert cur. induction tail as [|c tail IH]; intros cur Htail; simpl.
  - rewrite app_nil_r. reflexivity.
  - apply not_elem_of_cons in Htail as [Hc Htail].
    rewrite bool_decide_eq_false_2 by congruence.
    rewrite (IH _ Htail), <- app_assoc. reflexivity.
Qed.

(** What follows the last line feed of a text is not a complete line. *)
Lemma completeLines_open_tail (text tail : jsstring) :
  (10%N) ∉ tail → completeLines (text ++ tail) = completeLines text.
Proof.
  intros Htail. rewrite !completeLines_scan, scan_app.
  rewrite (scan_no_separator _ _ Htail). simpl. apply app_nil_r.
Qed.

(** C8, as stated, fails: a complete line that does not start with
    "data: " is parsed all the same when only white space stands before
    its "data: ". *)
Lemma indented_data_line_is_parsed :
  ¬ (∀ (env : Api.Platform) (values : list (list byte)) (e : Api.event),
       e ∈ Api.delivered env values →
       ∃ line, line ∈ completeLines (decoded env (concat values)) ∧
               startsWith line (js "data: ") = true).
Proof.
  intros claim.
  pose (values :=
    [Sample.ascii " data: "
     ++ Sample.object2Bytes "type" "text" "content" "Hel" ++ [Byte.x0a]]).
  destruct (claim Sample.platform values (Sample.textEvent "Hel"))
    as (line & Hline & Hstarts).
  - assert (E : Api.delivered Sample.platform values = [Sample.textEvent "Hel"])
      by (vm_compute; reflexivity).
    rewrite E. apply list_elem_of_here.
  - assert (E : completeLines (decoded Sample.platform (concat values))
                = [js " data: " ++ Sample.object2 "type" "text" "content" "Hel"])
      by (vm_compute; reflexivity).
    rewrite E in Hline. apply list_elem_of_singleton in Hline. subst line.
    vm_compute in Hstarts. discriminate Hstarts.
Qed.

(** C8, amended. The events [sendMessage] delivers do not depend on how
    the bytes of the body are cut into chunks: they are those delivered
    when the body arrives as one chunk. They are the events of the
    complete lines of the decoded text, in order, where a line has an
    event when, once trimmed, it starts with "data: ", its payload is not
    the sentinel "[DONE]" and [JSON.parse] accepts the payload; a line
    without an event is passed over and the lines after it are still
    read. What follows the last line feed is never delivered. *)
Theorem sendMessage_chunking_invariant
    (env : Api.Platform) (values : list (list byte)) :
  Api.delivered env values = Api.delivered env [concat values] ∧
  Api.delivered env values
  = omap (lineEvent env) (completeLines (decoded env (concat values))) ∧
  (∀ e, e ∈ Api.delivered env values →
     ∃ line, line ∈ completeLines (decoded env (concat values)) ∧
             startsWith (trim line) (js "data: ") = true ∧
             trim (slice 6 (trim line)) ≠ js "[DONE]" ∧
             Api.JSON_parse env (trim (slice 6 (trim line))) = Some e) ∧
  (∀ text tail, (10%N) ∉ tail →
     expected env (text ++ tail) = expected env text).
Proof.
  split; [|split; [|split]].
  - rewrite !delivered_expected. simpl. rewrite app_nil_r. reflexivity.
  - apply delivered_expected.
  - intros e He. rewrite delivered_expected in He.
    apply list_elem_of_omap in He as (line & Hline & Hev).
    exists line. split; [exact Hline|].
    unfold lineEvent, payload in Hev.
    destruct (startsWith (trim line) (js "data: ")); [|discriminate Hev].
    case_bool_decide; [discriminate Hev|]. auto.
  - intros text tail Htail. unfold expected.
    rewrite (completeLines_open_tail _ _ Htail). reflexivity.
Qed.

Lemma sendMessage_chunking_invariant_witness :
  let closed :=
    js "data: " ++ Sample.object2 "type" "text" "content" "Hel" ++ [10%N] in
  let rest := js "data: " ++ Sample.object2 "type" "text" "content" "lo" in
  ((10%N) ∉ rest) ∧
  expected Sample.platform (closed ++ rest) = expected Sample.platform closed.
Proof.
  intros closed rest.
  assert (Hopen : (10%N) ∉ rest) by compute_done.
  split; [exact Hopen|].
  exact (proj2 (proj2 (proj2
    (sendMessage_chunking_invariant Sample.platform [Sample.chatBody])))
    closed rest Hopen).
Defined.

End StreamClaims.

(** ** The chat page *)

Section Trim.

Lemma trimStart_nil (s : jsstring) :
  Forall (λ c, isWhiteSpace c = true) s → trimStart s = [].
Proof.
  induction 1 as [|c s Hc _ IH]; simpl; [reflexivity|].
  rewrite Hc. exact IH.
Qed.



End Trim.

Section ChatPage.
Import ChatStore Chat.


(** When [sendMessage] does not refuse, it sends exactly one request. *)
Lemma sendMessage_accepted_sends_one
    (env : Api.Platform) (clock : Clock) (page : Page) :
  refused page = false →
  ∃ req, Api.sent (world (sendMessage env clock page))
         = Api.sent (world page) ++ [req].
Proof.
  intros Hguard. unfold sendMessage. rewrite Hguard.
  destruct (currentConversation (store page)) as [conv|] eqn:Hconv.
  - unfold Api.sendMessage.
    match goal with |- context [Api.fetch env ?r] => exists r; destruct (Api.fetch env r) as [response|e] end.
    + destruct (negb (Api.ok response)); [reflexivity|].
      destruct (Api.stream response) as [reader|]; [|reflexivity].
      destruct (Api.readLoop _ _ _ _ _ _) as [fc st].
      destruct (Api.failure reader); reflexivity.
    + reflexivity.
  - unfold refused in Hguard. rewrite Hconv in Hguard.
    rewrite bool_decide_eq_false_2 in Hguard by (intros [? ?]; discriminate).
    simpl in Hguard. rewrite orb_true_r in Hguard. discriminate.
Qed.

End ChatPage.

Section ChatEvents.
Import ChatStore Chat.

(** Decide the tests between literals of the source. *)
Ltac literal_tests :=
  repeat match goal with
  | |- context [bool_decide (js ?a = js ?b)] =>
      let v := eval vm_compute in (bool_decide (js a = js b)) in
      change (bool_decide (js a = js b)) with v
  end.

Lemma onEvent_text (e : Api.event) (fc : jsstring) (st : ChatState) :
  Api.type e = js "text" →
  onEvent e (fc, st)
  = if truthyString (Api.content e)
    then (fc ++ default [] (Api.content e),
          updateLastMessage (fc ++ default [] (Api.content e)) st)
    else (fc, st).
Proof.
  intros Ht. unfold onEvent. rewrite Ht. literal_tests. reflexivity.
Qed.

Lemma onEvent_function_call (e : Api.event) (fc : jsstring) (st : ChatState) :
  Api.type e = js "function_call" →
  onEvent e (fc, st)
  = match Api.name e, Api.args e with
    | Some (c :: n), Some a =>
        (fc, addFunctionCallToLastMessage (c :: n) (JObject a) st)
    | _, _ => (fc, st)
    end.
Proof.
  intros Ht. unfold onEvent. rewrite Ht. literal_tests. reflexivity.
Qed.

Lemma onEvent_done (e : Api.event) (fc : jsstring) (st : ChatState) :
  Api.type e = js "done" → onEvent e (fc, st) = (fc, setStreaming false st).
Proof.
  intros Ht. unfold onEvent. rewrite Ht. literal_tests. reflexivity.
Qed.

Lemma onEvent_error (e : Api.event) (fc : jsstring) (st : ChatState) :
  Api.type e = js "error" →
  onEvent e (fc, st)
  = (fc, setStreaming false
           (updateLastMessage (orElse (Api.message e) apology) st)).
Proof.
  intros Ht. unfold onEvent. rewrite Ht. literal_tests. reflexivity.
Qed.

Lemma onEvent_unknown (e : Api.event) (h : jsstring * ChatState) :
  Api.type e ≠ js "text" → Api.type e ≠ js "function_call" →
  Api.type e ≠ js "done" → Api.type e ≠ js "error" →
  onEvent e h = h.
Proof.
  intros N1 N2 N3 N4. destruct h as [fc st]. unfold onEvent.
  rewrite !bool_decide_eq_false_2 by assumption. reflexivity.
Qed.

Lemma handled_cons (e : Api.event) (events : list Api.event)
    (h : jsstring * ChatState) :
  handled (e :: events) h = handled events (onEvent e h).
Proof. reflexivity. Qed.

Lemma withContent_same (x : Message) : withContent (content x) x = x.
Proof. destruct x; reflexivity. Qed.

(** Text events add their contents to [fullContent] and keep the content
    of the last message equal to it. *)
Lemma handled_text_deltas (events : list Api.event) :
  ∀ (fc : jsstring) (st : ChatState) (init : list Message) (x : Message),
    messages st = init ++ [x] → content x = fc →
    Forall (λ e, Api.type e = js "text") events →
    ∃ final,
      handled events (fc, st) = (fc ++ deltas events, final) ∧
      messages final = init ++ [withContent (fc ++ deltas events) x] ∧
      isStreaming final = isStreaming st ∧
      currentConversation final = currentConversation st.
Proof.
  induction events as [|e events IH]; intros fc st init x Hst Hx Hall.
  - exists st. unfold deltas. simpl. rewrite app_nil_r, <- Hx, withContent_same.
    auto.
  - apply Forall_cons in Hall as [Ht Hall].
    rewrite handled_cons, (onEvent_text e fc st Ht).
    change (deltas (e :: events))
      with (default [] (Api.content e) ++ deltas events).
    rewrite app_assoc.
    destruct (truthyString (Api.content e)) eqn:Htruthy.
    + destruct (IH (fc ++ default [] (Api.content e))
                   (updateLastMessage (fc ++ default [] (Api.content e)) st)
                   init (withContent (fc ++ default [] (Api.content e)) x))
        as (final & Hrun & Hmsgs & Hstr & Hconv);
        [apply updateLastMessage_snoc, Hst | reflexivity | exact Hall |].
      exists final. auto.
    + assert (E : default [] (Api.content e) = []).
      { destruct (Api.content e) as [[|c r]|]; [reflexivity | discriminate | reflexivity]. }
      rewrite E, app_nil_r.
      apply (IH fc st init x Hst Hx Hall).
Qed.

End ChatEvents.

Section ChatToolCalls.
Import ChatStore Chat.

(** C4, as stated, fails: the handler has no case for the event type
    "tool_invocation", so such an event records nothing. *)
Lemma tool_invocation_event_is_ignored :
  ¬ (∀ (e : Api.event) (fc : jsstring) (st : ChatState)
       (init : list Message) (x : Message) (n : jsstring)
       (a : list (jsstring * json)),
       Api.type e = js "tool_invocation" →
       Api.name e = Some n → Api.args e = Some a →
       messages st = init ++ [x] →
       messages (onEvent e (fc, st)).2
       = init ++ [withFunctionCall n (JObject a) x]).
Proof.
  intros claim.
  specialize (claim (Sample.toolEvent "tool_invocation" "semantic_search") []
    (opened Sample.clock (js "find my invoice") ChatStore.initial)
    [userMessage Sample.clock (js "find my invoice")]
    (assistantMessage Sample.clock)
    (js "semantic_search") [(js "query", JString (js "invoice"))]
    eq_refl eq_refl eq_refl eq_refl).
  vm_compute in claim. discriminate claim.
Qed.

(** C4, amended. For every chat stream event whose type is
    "function_call" and that carries a non-empty name and args, the
    client records the invocation, name and args, at the end of the list
    of function calls of the in-flight assistant message, and changes
    nothing else. *)
Theorem function_call_recorded
    (e : Api.event) (fc : jsstring) (st : ChatState)
    (init : list Message) (x : Message)
    (c : N) (n : jsstring) (a : list (jsstring * json)) :
  Api.type e = js "function_call" →
  Api.name e = Some (c :: n) → Api.args e = Some a →
  messages st = init ++ [x] →
  ∃ final,
    onEvent e (fc, st) = (fc, final) ∧
    messages final
    = init ++ [{| id := id x; role := role x; content := content x;
                  created_at := created_at x;
                  function_calls :=
                    Some (default [] (function_calls x)
                          ++ [{| name := c :: n; args := JObject a |}]) |}] ∧
    isStreaming final = isStreaming st ∧
    currentConversation final = currentConversation st.
Proof.
  intros Ht Hn Ha Hst.
  exists (addFunctionCallToLastMessage (c :: n) (JObject a) st).
  rewrite (onEvent_function_call e fc st Ht), Hn, Ha.
  split; [reflexivity|]. split; [|auto].
  apply (addFunctionCallToLastMessage_snoc _ _ st init x Hst).
Qed.

Lemma function_call_recorded_witness :
  ∃ final,
    onEvent (Sample.toolEvent "function_call" "semantic_search")
      ([], opened Sample.clock (js "find my invoice") ChatStore.initial)
    = ([], final) ∧
    function_calls <$> last (messages final)
    = Some (Some [{| name := js "semantic_search";
                     args := JObject [(js "query", JString (js "invoice"))] |}]).
Proof.
  destruct (function_call_recorded
              (Sample.toolEvent "function_call" "semantic_search") []
              (opened Sample.clock (js "find my invoice") ChatStore.initial)
              [userMessage Sample.clock (js "find my invoice")]
              (assistantMessage Sample.clock)
              115%N (js "emantic_search")
              [(js "query", JString (js "invoice"))]
              eq_refl eq_refl eq_refl eq_refl)
    as (final & Hrun & Hmsgs & _).
  exists final. split; [exact Hrun|]. rewrite Hmsgs. reflexivity.
Defined.

End ChatToolCalls.

Section ChatErrors.
Import ChatStore Chat.

(** Whatever the event, the last message stays the last message: its
    header and the messages before it are kept. *)
Lemma onEvent_last (e : Api.event) (fc : jsstring) (st : ChatState)
    (init : list Message) (x : Message) :
  messages st = init ++ [x] →
  ∃ x', messages (onEvent e (fc, st)).2 = init ++ [x'] ∧ header x' = header x.
Proof.
  intros Hst.
  destruct (decide (Api.type e = js "text")) as [Ht|N1].
  { rewrite (onEvent_text e fc st Ht).
    destruct (truthyString (Api.content e)); simpl; [|eauto].
    eexists. split; [apply updateLastMessage_snoc, Hst | reflexivity]. }
  destruct (decide (Api.type e = js "function_call")) as [Ht|N2].
  { rewrite (onEvent_function_call e fc st Ht).
    destruct (Api.name e) as [[|c n]|]; simpl; eauto.
    destruct (Api.args e) as [a|]; simpl; [|eauto].
    eexists. split; [apply addFunctionCallToLastMessage_snoc, Hst | reflexivity]. }
  destruct (decide (Api.type e = js "done")) as [Ht|N3].
  { rewrite (onEvent_done e fc st Ht). simpl. eauto. }
  destruct (decide (Api.type e = js "error")) as [Ht|N4].
  { rewrite (onEvent_error e fc st Ht). simpl.
    eexists. split; [apply updateLastMessage_snoc, Hst | reflexivity]. }
  rewrite (onEvent_unknown e (fc, st) N1 N2 N3 N4). eauto.
Qed.

Lemma handled_last (events : list Api.event) :
  ∀ (fc : jsstring) (st : ChatState) (init : list Message) (x : Message),
    messages st = init ++ [x] →
    ∃ x', messages (handled events (fc, st)).2 = init ++ [x'] ∧
          header x' = header x.
Proof.
  induction events as [|e events IH]; intros fc st init x Hst.
  - exists x. auto.
  - rewrite handled_cons.
    destruct (onEvent_last e fc st init x Hst) as (x1 & Hst1 & Hx1).
    destruct (onEvent e (fc, st)) as [fc1 st1]. simpl in Hst1.
    destruct (IH fc1 st1 init x1 Hst1) as (x2 & Hst2 & Hx2).
    exists x2. split; [exact Hst2 | congruence].
Qed.

(** A quiet event keeps the content of the last message and does not
    raise [isStreaming]. *)
Lemma onEvent_quiet (e : Api.event) (fc : jsstring) (st : ChatState)
    (init : list Message) (x : Message) :
  quiet e → messages st = init ++ [x] → isStreaming st = false →
  ∃ x', messages (onEvent e (fc, st)).2 = init ++ [x'] ∧
        content x' = content x ∧ header x' = header x ∧
        isStreaming (onEvent e (fc, st)).2 = false.
Proof.
  intros [Hq N4] Hst Hstr.
  destruct (decide (Api.type e = js "text")) as [Ht|N1].
  { rewrite (onEvent_text e fc st Ht), (Hq Ht). simpl. eauto. }
  destruct (decide (Api.type e = js "function_call")) as [Ht|N2].
  { rewrite (onEvent_function_call e fc st Ht).
    destruct (Api.name e) as [[|c n]|]; simpl; eauto.
    destruct (Api.args e) as [a|]; simpl; [|eauto].
    eexists. split; [apply addFunctionCallToLastMessage_snoc, Hst | auto]. }
  destruct (decide (Api.type e = js "done")) as [Ht|N3].
  { rewrite (onEvent_done e fc st Ht). simpl. eauto. }
  rewrite (onEvent_unknown e (fc, st) N1 N2 N3 N4). simpl. eauto.
Qed.

Lemma handled_quiet (events : list Api.event) :
  ∀ (fc : jsstring) (st : ChatState) (init : list Message) (x : Message),
    Forall quiet events → messages st = init ++ [x] →
    isStreaming st = false →
    ∃ x', messages (handled events (fc, st)).2 = init ++ [x'] ∧
          content x' = content x ∧ header x' = header x ∧
          isStreaming (handled events (fc, st)).2 = false.
Proof.
  induction events as [|e events IH]; intros fc st init x Hall Hst Hstr.
  - exists x. auto.
  - apply Forall_cons in Hall as [Hq Hall]. rewrite handled_cons.
    destruct (onEvent_quiet e fc st init x Hq Hst Hstr)
      as (x1 & Hst1 & Hc1 & Hx1 & Hstr1).
    destruct (onEvent e (fc, st)) as [fc1 st1]. simpl in Hst1, Hstr1.
    destruct (IH fc1 st1 init x1 Hall Hst1 Hstr1)
      as (x2 & Hst2 & Hc2 & Hx2 & Hstr2).
    exists x2. repeat split; [exact Hst2 | congruence.. | exact Hstr2].
Qed.

(** The state [api.sendMessage] leaves its callback in is the one reached
    by calling the callback on some events, one after the other. *)
Lemma sendMessage_handled (env : Api.Platform)
    (conversationId message : jsstring) (w : Api.World)
    (h : jsstring * ChatState) :
  ∃ events,
    (Api.sendMessage env onEvent conversationId message w h).1.2
    = handled events h.
Proof.
  unfold Api.sendMessage.
  match goal with
  | |- context [Api.fetch env ?r] => destruct (Api.fetch env r) as [response|e]
  end; [|exists []; reflexivity].
  destruct (negb (Api.ok response)); [exists []; reflexivity|].
  destruct (Api.stream response) as [reader|]; [|exists []; reflexivity].
  exists (Api.delivered env (Api.chunks reader)).
  rewrite readLoop_delivered.
  destruct (Api.failure reader); reflexivity.
Qed.

End ChatErrors.

Section ChatErrorClaims.
Import ChatStore Chat.

(** C5, as stated, fails: the handler keeps no record of the error, and
    a text delta that arrives after the error event in the same stream
    puts the accumulated text in the place of the error text. *)
Lemma text_after_error_replaces_error_text :
  ¬ (∀ (clock : Clock) (text : jsstring) (st : ChatState)
       (failed : Api.event) (later : list Api.event),
       Api.type failed = js "error" →
       Forall (λ e, Api.type e = js "text") later →
       content <$> last (messages
         (handled (failed :: later) ([], opened clock text st)).2)
       = Some (orElse (Api.message failed) apology)).
Proof.
  intros claim.
  specialize (claim Sample.clock (js "hi") ChatStore.initial
    (Sample.errorEvent "step limit exceeded") [Sample.textEvent "lo"]
    eq_refl).
  assert (Hlater : Forall (λ e, Api.type e = js "text") [Sample.textEvent "lo"])
    by (repeat constructor).
  specialize (claim Hlater).
  vm_compute in claim. discriminate claim.
Qed.

(** C5, amended. On an event of type "error" the handler sets
    [isStreaming] to false and replaces the content of the in-flight
    assistant message with the event's message or, when that is absent or
    empty, with the generic apology. When the send-message request throws,
    [sendMessage] sets [isStreaming] to false and replaces that content
    with the generic apology, and nothing is processed after it. After an
    error event the error text and the lowered flag stay as long as the
    events that follow in the stream are quiet: neither a text event with
    content nor another error event. *)
Theorem error_shows_safe_message
    (env : Api.Platform) (clock : Clock) (page : Page) :
  (∀ e fc st init x,
     Api.type e = js "error" → messages st = init ++ [x] →
     ∃ final,
       onEvent e (fc, st) = (fc, final) ∧
       isStreaming final = false ∧
       messages final
       = init ++ [withContent (orElse (Api.message e) apology) x]) ∧
  (∀ conversation error,
     refused page = false →
     currentConversation (store page) = Some conversation →
     (Api.sendMessage env onEvent (conversation_id conversation)
        (input page) (world page)
        ([], opened clock (input page) (store page))).2 = Throw error →
     isStreaming (store (sendMessage env clock page)) = false ∧
     ∃ x, messages (store (sendMessage env clock page))
          = messages (store page)
            ++ [userMessage clock (input page); withContent apology x] ∧
          header x = header (assistantMessage clock)) ∧
  (∀ e later fc st init x,
     Api.type e = js "error" → messages st = init ++ [x] →
     Forall quiet later →
     ∃ x', messages (handled (e :: later) (fc, st)).2 = init ++ [x'] ∧
           content x' = orElse (Api.message e) apology ∧
           header x' = header x ∧
           isStreaming (handled (e :: later) (fc, st)).2 = false).
Proof.
  split; [|split].
  - intros e fc st init x Ht Hst.
    rewrite (onEvent_error e fc st Ht). eexists.
    split; [reflexivity|]. split; [reflexivity|].
    simpl. apply (updateLastMessage_snoc _ st init x Hst).
  - intros conversation error Hguard Hconv Hthrow.
    destruct (sendMessage_handled env (conversation_id conversation)
                (input page) (world page)
                ([], opened clock (input page) (store page)))
      as [events Hevents].
    unfold sendMessage. rewrite Hguard, Hconv.
    destruct (Api.sendMessage env onEvent (conversation_id conversation)
                (input page) (world page)
                ([], opened clock (input page) (store page)))
      as [[w [fc st]] settled].
    simpl in Hthrow, Hevents. subst settled.
    cbv beta iota zeta. cbn [store messages isStreaming setStreaming].
    split; [reflexivity|].
    destruct (handled_last events [] (opened clock (input page) (store page))
                (messages (store page) ++ [userMessage clock (input page)])
                (assistantMessage clock) eq_refl)
      as (x & Hmsgs & Hx).
    rewrite <- Hevents in Hmsgs. simpl in Hmsgs.
    exists x. split; [|exact Hx].
    rewrite (updateLastMessage_snoc apology st _ x Hmsgs), <- app_assoc.
    reflexivity.
  - intros e later fc st init x Ht Hst Hall.
    rewrite handled_cons, (onEvent_error e fc st Ht).
    destruct (handled_quiet later fc
                (setStreaming false
                   (updateLastMessage (orElse (Api.message e) apology) st))
                init (withContent (orElse (Api.message e) apology) x) Hall)
      as (x' & Hmsgs & Hc & Hx & Hstr);
      [apply (updateLastMessage_snoc _ st init x Hst) | reflexivity |].
    exists x'. auto.
Qed.

Lemma error_shows_safe_message_witness :
  ∃ final,
    onEvent (Sample.errorEvent "step limit exceeded")
      (js "Hel", opened Sample.clock (js "hi") ChatStore.initial)
    = (js "Hel", final) ∧
    isStreaming final = false ∧
    messages final
    = [userMessage Sample.clock (js "hi");
       withContent (js "step limit exceeded") (assistantMessage Sample.clock)].
Proof.
  exact (proj1 (error_shows_safe_message Sample.platform Sample.clock
                  (Sample.page "hi" false))
           (Sample.errorEvent "step limit exceeded") (js "Hel")
           (opened Sample.clock (js "hi") ChatStore.initial)
           [userMessage Sample.clock (js "hi")]
           (assistantMessage Sample.clock) eq_refl eq_refl).
Defined.

End ChatErrorClaims.

(** ** The API client's [request] *)

Section Request.
Import Api.
Context (env : Platform).

Lemma ok_not_unauthorized (response : Response) :
  ok response = true → status response ≠ 401.
Proof.
  unfold ok. intros Hok%bool_decide_eq_true. lia.
Qed.

(** [request] returns normally, with the response, exactly when the
    response is ok. *)
Lemma request_returns_iff_ok (endpoint : jsstring) (options : RequestInit)
    (w : World) (response : Response) :
  fetch env (outgoing env endpoint options w) = Return response →
  (∃ r, (request env endpoint options w).2 = Return r) ↔ ok response = true.
Proof.
  intros Hfetch. unfold request. rewrite Hfetch. split.
  - intros [r Hr]. case_bool_decide; [discriminate Hr|].
    destruct (ok response); [reflexivity|]. simpl in Hr.
    destruct (detailOr _ _); discriminate Hr.
  - intros Hok. exists response.
    rewrite bool_decide_eq_false_2 by (apply ok_not_unauthorized, Hok).
    rewrite Hok. reflexivity.
Qed.

(** On status 401 the token is cleared, the page is sent to the login
    route and an [ApiError] of status 401 is thrown. *)
Lemma request_unauthorized (endpoint : jsstring) (options : RequestInit)
    (w : World) (response : Response) :
  fetch env (outgoing env endpoint options w) = Return response →
  status response = 401 →
  (request env endpoint options w).2
  = Throw (ApiError 401 (JString (js "Unauthorized"))) ∧
  AuthStore.token (auth (request env endpoint options w).1) = None ∧
  AuthStore.isAuthenticated (auth (request env endpoint options w).1) = false ∧
  href (request env endpoint options w).1 = js "/login".
Proof.
  intros Hfetch Hstatus. unfold request. rewrite Hfetch.
  rewrite bool_decide_eq_true_2 by exact Hstatus. auto.
Qed.

(** On any other status that is not ok, when the body is not JSON, or is
    JSON other than [null], an [ApiError] is thrown with the status of
    the response and the [detail] of the body when it has a truthy one,
    the fallback text otherwise. *)
Lemma request_error_detail (endpoint : jsstring) (options : RequestInit)
    (w : World) (response : Response) :
  fetch env (outgoing env endpoint options w) = Return response →
  status response ≠ 401 → ok response = false →
  json_ response ≠ Some JNull →
  ∃ m, (request env endpoint options w).2
       = Throw (ApiError (status response) m) ∧
       (m = JString (js "An error occurred") ∨
        ∃ fields, json_ response = Some (JObject fields) ∧
                  assoc (js "detail") fields = Some m ∧ truthy m = true).
Proof.
  intros Hfetch Hstatus Hok Hbody. unfold request. rewrite Hfetch.
  rewrite bool_decide_eq_false_2 by exact Hstatus. rewrite Hok. simpl.
  destruct (json_ response) as [v|]; [|simpl; eauto].
  destruct v as [|b|n|s|items|fields]; simpl; eauto.
  - congruence.
  - destruct (assoc (js "detail") fields) as [d|] eqn:Hd; simpl; [|eauto].
    destruct (truthy d) eqn:Htruthy; simpl; eauto 10.
Qed.

(** When the body of an error response is the JSON value [null],
    reading its [detail] throws a [TypeError] and no [ApiError] is made. *)
Lemma request_error_null (endpoint : jsstring) (options : RequestInit)
    (w : World) (response : Response) :
  fetch env (outgoing env endpoint options w) = Return response →
  status response ≠ 401 → ok response = false →
  json_ response = Some JNull →
  (request env endpoint options w).2 = Throw TypeError.
Proof.
  intros Hfetch Hstatus Hok Hbody. unfold request. rewrite Hfetch.
  rewrite bool_decide_eq_false_2 by exact Hstatus. rewrite Hok, Hbody.
  reflexivity.
Qed.

End Request.

Section RequestClaims.
Import Api.

(** C9. [request] is to throw an [ApiError] that carries the status of
    the response on every status that is not ok. It does not when the
    body of the error response is the JSON value [null]: on the answer
    500 with body [null] it throws a [TypeError], which carries neither
    the status nor the fallback message. *)
Theorem request_null_error_body_throws_TypeError :
  fetch Sample.platform
    (outgoing Sample.platform (js "/api/media/list") Sample.noOptions
       Sample.signedIn)
  = Return {| status := 500; json_ := Some JNull; stream := None |} ∧
  (request Sample.platform (js "/api/media/list") Sample.noOptions
     Sample.signedIn).2
  = Throw TypeError.
Proof.
  assert (Hfetch :
    fetch Sample.platform
      (outgoing Sample.platform (js "/api/media/list") Sample.noOptions
         Sample.signedIn)
    = Return {| status := 500; json_ := Some JNull; stream := None |})
    by (vm_compute; reflexivity).
  split; [exact Hfetch|].
  apply (request_error_null Sample.platform _ _ _ _ Hfetch);
    [discriminate | reflexivity | reflexivity].
Qed.

End RequestClaims.

(** ** Selecting a conversation *)

Section Selection.
Import ChatStore.

(** C10. [setCurrentConversation] makes the given conversation, or
    none, the current one and empties the message list, whatever the store
    held: no message of the conversation shown before stays at any index. *)
Theorem setCurrentConversation_empties_messages
    (st : ChatState) (conversation : option Conversation) :
  messages (setCurrentConversation conversation st) = [] ∧
  currentConversation (setCurrentConversation conversation st) = conversation ∧
  isStreaming (setCurrentConversation conversation st) = isStreaming st ∧
  (∀ i, messages (setCurrentConversation conversation st) !! i = None).
Proof.
  repeat split; reflexivity.
Qed.

End Selection.

(** ** A run of the page against the sample server *)

Section Run.
Import ChatStore Chat.

(** The body arrives in two chunks cut in the middle of the first line;
    the two text deltas end up, joined, in the assistant message, and one
    request has been sent. *)
Example sendMessage_sample_run :
  let page' := sendMessage Sample.platform Sample.clock (Sample.page "hi" false) in
  messages (store page')
  = [userMessage Sample.clock (js "hi");
     withContent (js "Hello") (assistantMessage Sample.clock)] ∧
  input page' = [] ∧
  length (Api.sent (world page')) = 1%nat.
Proof. vm_compute. auto. Qed.

(** With the stream refused by the server the apology is shown. *)
Example sendMessage_sample_failure :
  let page := {| store := store (Sample.page "hi" false);
                 input := js "hi";
                 world := Sample.signedIn |} in
  let other := {| conversation_id := js "c2"; title := None;
                  conversation_created_at := js "2025-01-02T00:00:00.000Z";
                  updated_at := None |} in
  let page' :=
    sendMessage Sample.platform Sample.clock
      {| store := setCurrentConversation (Some other) (store page);
         input := input page; world := world page |} in
  messages (store page')
  = [userMessage Sample.clock (js "hi");
     withContent apology (assistantMessage Sample.clock)] ∧
  isStreaming (store page') = false.
Proof. vm_compute. auto. Qed.

End Run.

(** * Further properties *)

(** ** The chat store and the event handler *)

Section StoreLaws.
Import ChatStore.

Lemma snoc_cases {A} (l : list A) : l = [] ∨ ∃ init x, l = init ++ [x].
Proof.
  destruct l as [|y l _] using rev_ind; eauto.
Qed.






End StoreLaws.

Section HandlerFrame.
Import ChatStore Chat Transcript.

Ltac literal_tests :=
  repeat match goal with
  | |- context [bool_decide (js ?a = js ?b)] =>
      let v := eval vm_compute in (bool_decide (js a = js b)) in
      change (bool_decide (js a = js b)) with v
  end.

Lemma framed_refl (st : ChatState) : framed st st.
Proof. repeat split. Qed.

Lemma framed_trans (st1 st2 st3 : ChatState) :
  framed st1 st2 → framed st2 st3 → framed st1 st3.
Proof.
  intros (A1 & B1 & C1) (A2 & B2 & C2). repeat split; congruence.
Qed.

Lemma framed_setStreaming (b : bool) (st : ChatState) :
  framed st (setStreaming b st).
Proof. repeat split. Qed.

Lemma framed_last (f : Message → Message) (st : ChatState) :
  (∀ m, header (f m) = header m) →
  framed st
    (setMessages
       (imap (λ idx msg, if isLastIndex (messages st) idx then f msg else msg)
             (messages st)) st).
Proof.
  intros Hf. unfold framed. simpl. split; [reflexivity|].
  destruct (snoc_cases (messages st)) as [E | (init & x & E)]; rewrite E.
  - split; reflexivity.
  - rewrite imap_last_snoc, !fmap_app, !removelast_last. simpl.
    rewrite Hf. split; reflexivity.
Qed.

Lemma framed_updateLastMessage (c : jsstring) (st : ChatState) :
  framed st (updateLastMessage c st).
Proof. apply (framed_last (withContent c)). reflexivity. Qed.

Lemma framed_addFunctionCall (n : jsstring) (a : json) (st : ChatState) :
  framed st (addFunctionCallToLastMessage n a st).
Proof. apply (framed_last (withFunctionCall n a)). reflexivity. Qed.

Lemma onEvent_cases (e : Api.event) (fc : jsstring) (st : ChatState) :
  (Api.type e = js "text" ∧
   onEvent e (fc, st)
   = if truthyString (Api.content e)
     then (fc ++ default [] (Api.content e),
           updateLastMessage (fc ++ default [] (Api.content e)) st)
     else (fc, st)) ∨
  (Api.type e = js "function_call" ∧
   onEvent e (fc, st)
   = match call e with
     | Some c => (fc, addFunctionCallToLastMessage (name c) (args c) st)
     | None => (fc, st)
     end) ∨
  (Api.type e = js "done" ∧ onEvent e (fc, st) = (fc, setStreaming false st)) ∨
  (Api.type e = js "error" ∧
   onEvent e (fc, st)
   = (fc, setStreaming false
            (updateLastMessage (orElse (Api.message e) apology) st))) ∨
  (Api.type e ≠ js "text" ∧ Api.type e ≠ js "function_call" ∧
   Api.type e ≠ js "done" ∧ Api.type e ≠ js "error" ∧
   onEvent e (fc, st) = (fc, st)).
Proof.
  destruct (decide (Api.type e = js "text")) as [Ht|N1].
  { left. split; [exact Ht|]. apply onEvent_text, Ht. }
  destruct (decide (Api.type e = js "function_call")) as [Ht|N2].
  { right; left. split; [exact Ht|].
    rewrite (onEvent_function_call e fc st Ht). unfold call.
    rewrite bool_decide_eq_true_2 by exact Ht.
    destruct (Api.name e) as [[|c n]|]; [reflexivity | | reflexivity].
    destruct (Api.args e); reflexivity. }
  destruct (decide (Api.type e = js "done")) as [Ht|N3].
  { right; right; left. split; [exact Ht|]. apply onEvent_done, Ht. }
  destruct (decide (Api.type e = js "error")) as [Ht|N4].
  { right; right; right; left. split; [exact Ht|]. apply onEvent_error, Ht. }
  right; right; right; right.
  repeat (split; [assumption|]). apply onEvent_unknown; assumption.
Qed.

Lemma onEvent_framed (e : Api.event) (fc : jsstring) (st : ChatState) :
  framed st (onEvent e (fc, st)).2.
Proof.
  destruct (onEvent_cases e fc st)
    as [[_ E] | [[_ E] | [[_ E] | [[_ E] | (_ & _ & _ & _ & E)]]]]; rewrite E.
  - destruct (truthyString (Api.content e)); simpl;
      [apply framed_updateLastMessage | apply framed_refl].
  - destruct (call e); simpl; [apply framed_addFunctionCall | apply framed_refl].
  - apply framed_setStreaming.
  - simpl. eapply framed_trans;
      [apply framed_updateLastMessage | apply framed_setStreaming].
  - apply framed_refl.
Qed.

Lemma handled_framed (events : list Api.event) (fc : jsstring) (st : ChatState) :
  framed st (handled events (fc, st)).2.
Proof.
  revert fc st. induction events as [|e events IH]; intros fc st.
  - apply framed_refl.
  - rewrite handled_cons.
    pose proof (onEvent_framed e fc st) as Hstep.
    destruct (onEvent e (fc, st)) as [fc1 st1]. simpl in Hstep.
    eapply framed_trans; [exact Hstep | apply IH].
Qed.

(** X2. Whatever the events, the handler adds no message, removes none
    and reorders none: the conversation, every message but the last and
    the id, role and date of every message are as before. On an empty
    list, as after a change of conversation in mid-stream, the list stays
    empty. *)
Theorem handled_keeps_messages
    (events : list Api.event) (fc : jsstring) (st : ChatState) :
  currentConversation (handled events (fc, st)).2 = currentConversation st ∧
  header <$> messages (handled events (fc, st)).2 = header <$> messages st ∧
  removelast (messages (handled events (fc, st)).2)
  = removelast (messages st) ∧
  length (messages (handled events (fc, st)).2) = length (messages st).
Proof.
  destruct (handled_framed events fc st) as (A & B & C).
  repeat split; [exact A | exact B | exact C |].
  apply (f_equal length) in B. rewrite !length_fmap in B. exact B.
Qed.

Lemma ends_text (e : Api.event) : Api.type e = js "text" → ends e = false.
Proof. intros Ht. unfold ends. rewrite Ht. literal_tests. reflexivity. Qed.

Lemma ends_function_call (e : Api.event) :
  Api.type e = js "function_call" → ends e = false.
Proof. intros Ht. unfold ends. rewrite Ht. literal_tests. reflexivity. Qed.

Lemma onEvent_isStreaming (e : Api.event) (fc : jsstring) (st : ChatState) :
  isStreaming (onEvent e (fc, st)).2
  = if ends e then false else isStreaming st.
Proof.
  destruct (onEvent_cases e fc st)
    as [[Ht E] | [[Ht E] | [[Ht E] | [[Ht E] | (N1 & N2 & N3 & N4 & E)]]]];
    rewrite E.
  - rewrite (ends_text e Ht).
    destruct (truthyString (Api.content e)); reflexivity.
  - rewrite (ends_function_call e Ht). destruct (call e); reflexivity.
  - unfold ends. rewrite bool_decide_eq_true_2 by exact Ht. reflexivity.
  - unfold ends. rewrite (bool_decide_eq_true_2 _ Ht), orb_true_r. reflexivity.
  - unfold ends. rewrite !bool_decide_eq_false_2 by assumption. reflexivity.
Qed.

Lemma handled_flag (events : list Api.event) (fc : jsstring) (st : ChatState) :
  isStreaming (handled events (fc, st)).2
  = if existsb ends events then false else isStreaming st.
Proof.
  revert fc st. induction events as [|e events IH]; intros fc st.
  - reflexivity.
  - rewrite handled_cons.
    change (existsb ends (e :: events)) with (ends e || existsb ends events).
    pose proof (onEvent_isStreaming e fc st) as Hstep.
    destruct (onEvent e (fc, st)) as [fc1 st1]. simpl in Hstep.
    rewrite IH, Hstep.
    destruct (ends e); simpl; destruct (existsb ends events); reflexivity.
Qed.

(** X3. The handler lowers [isStreaming] on "done" and "error" events
    and on no other: after a stream of events the flag is false when one
    of them was a "done" or an "error", and is what it was otherwise. A
    stream that ends without either leaves the flag raised. *)
Theorem handled_isStreaming
    (events : list Api.event) (fc : jsstring) (st : ChatState) :
  isStreaming (handled events (fc, st)).2
  = (if existsb ends events then false else isStreaming st) ∧
  (existsb ends events = false →
   isStreaming (handled events (fc, st)).2 = isStreaming st).
Proof.
  split.
  - apply handled_flag.
  - intros Hnone. rewrite handled_flag, Hnone. reflexivity.
Qed.

Lemma handled_isStreaming_witness :
  isStreaming
    (handled [Sample.textEvent "Hel"; Sample.textEvent "lo"]
       ([], opened Sample.clock (js "hi") ChatStore.initial)).2
  = true.
Proof.
  apply (proj2 (handled_isStreaming
                  [Sample.textEvent "Hel"; Sample.textEvent "lo"] []
                  (opened Sample.clock (js "hi") ChatStore.initial))).
  reflexivity.
Defined.

End HandlerFrame.

Section HandlerTranscript.
Import ChatStore Chat Transcript.

Ltac literal_tests :=
  repeat match goal with
  | |- context [bool_decide (js ?a = js ?b)] =>
      let v := eval vm_compute in (bool_decide (js a = js b)) in
      change (bool_decide (js a = js b)) with v
  end.

Lemma texts_cons (e : Api.event) (events : list Api.event) :
  texts (e :: events)
  = (if isText e then default [] (Api.content e) else []) ++ texts events.
Proof.
  unfold texts, deltas. rewrite filter_cons.
  destruct (isText e) eqn:Ht.
  - rewrite decide_True by reflexivity. reflexivity.
  - rewrite decide_False by discriminate. reflexivity.
Qed.

Lemma calls_cons (e : Api.event) (events : list Api.event) :
  calls (e :: events)
  = match call e with
    | Some c => c :: calls events
    | None => calls events
    end.
Proof. reflexivity. Qed.

Lemma call_text (e : Api.event) : Api.type e = js "text" → call e = None.
Proof. intros Ht. unfold call. rewrite Ht. literal_tests. reflexivity. Qed.

Lemma call_other (e : Api.event) :
  Api.type e ≠ js "function_call" → call e = None.
Proof. intros N. unfold call. rewrite bool_decide_eq_false_2 by exact N. reflexivity. Qed.

Lemma isText_function_call (e : Api.event) :
  Api.type e = js "function_call" → isText e = false.
Proof. intros Ht. unfold isText. rewrite Ht. literal_tests. reflexivity. Qed.

Lemma isText_done (e : Api.event) : Api.type e = js "done" → isText e = false.
Proof. intros Ht. unfold isText. rewrite Ht. literal_tests. reflexivity. Qed.

Lemma recorded_withContent (c c' : jsstring) (cs : list FunctionCall) (x : Message) :
  recorded c cs (withContent c' x) = recorded c cs x.
Proof. destruct cs; reflexivity. Qed.

Lemma recorded_withFunctionCall (c : jsstring) (k : FunctionCall)
    (cs : list FunctionCall) (x : Message) :
  recorded c cs (withFunctionCall (name k) (args k) x) = recorded c (k :: cs) x.
Proof.
  destruct k as [n a]. unfold recorded. simpl. f_equal.
  destruct cs as [|c0 cs]; simpl; [reflexivity|].
  rewrite <- app_assoc. reflexivity.
Qed.

Lemma recorded_same (x : Message) : recorded (content x ++ []) [] x = x.
Proof. destruct x. unfold recorded. simpl. rewrite app_nil_r. reflexivity. Qed.

Lemma handled_error_free (events : list Api.event) :
  ∀ (fc : jsstring) (st : ChatState) (init : list Message) (x : Message),
    messages st = init ++ [x] → content x = fc →
    Forall (λ e, Api.type e ≠ js "error") events →
    (handled events (fc, st)).1 = fc ++ texts events ∧
    messages (handled events (fc, st)).2
    = init ++ [recorded (fc ++ texts events) (calls events) x].
Proof.
  induction events as [|e events IH]; intros fc st init x Hst Hx Hall.
  - subst fc. change (texts []) with (@nil N). change (calls []) with (@nil FunctionCall).
    rewrite recorded_same, app_nil_r. split; [reflexivity | exact Hst].
  - apply Forall_cons in Hall as [Hne Hall].
    rewrite handled_cons, texts_cons, calls_cons.
    destruct (onEvent_cases e fc st)
      as [[Ht E] | [[Ht E] | [[Ht E] | [[Ht E] | (N1 & N2 & N3 & N4 & E)]]]];
      rewrite E; clear E.
    + rewrite (call_text e Ht).
      unfold isText. rewrite (bool_decide_eq_true_2 _ Ht).
      destruct (truthyString (Api.content e)) eqn:Htruthy.
      * destruct (IH (fc ++ default [] (Api.content e))
                     (updateLastMessage (fc ++ default [] (Api.content e)) st)
                     init (withContent (fc ++ default [] (Api.content e)) x))
          as [Hfc Hmsgs];
          [apply updateLastMessage_snoc, Hst | reflexivity | exact Hall |].
        rewrite Hfc, Hmsgs, recorded_withContent, app_assoc. auto.
      * assert (Hempty : default [] (Api.content e) = []).
        { destruct (Api.content e) as [[|c r]|];
            [reflexivity | discriminate | reflexivity]. }
        rewrite Hempty. apply (IH fc st init x Hst Hx Hall).
    + rewrite (isText_function_call e Ht). simpl.
      destruct (call e) as [k|].
      * destruct (IH fc (addFunctionCallToLastMessage (name k) (args k) st)
                     init (withFunctionCall (name k) (args k) x))
          as [Hfc Hmsgs];
          [apply addFunctionCallToLastMessage_snoc, Hst | exact Hx | exact Hall |].
        rewrite Hfc, Hmsgs, recorded_withFunctionCall. auto.
      * apply (IH fc st init x Hst Hx Hall).
    + rewrite (isText_done e Ht), (call_other e) by (rewrite Ht; discriminate).
      apply (IH fc (setStreaming false st) init x Hst Hx Hall).
    + contradiction.
    + rewrite (call_other e N2). unfold isText.
      rewrite (bool_decide_eq_false_2 _ N1).
      apply (IH fc st init x Hst Hx Hall).
Qed.

(** X4. Over a stream without error events, from the state
    [sendMessage] sets up, the assistant message ends with the contents
    of the text events as its content and with the invocations of the
    function-call events that carry a name and args as its function
    calls, each in the order of arrival, however the two kinds, "done"
    events and events of unknown type are mixed; the messages before it
    are untouched. *)
Theorem handled_transcript
    (clock : Clock) (text : jsstring) (st : ChatState)
    (events : list Api.event) :
  Forall (λ e, Api.type e ≠ js "error") events →
  (handled events ([], opened clock text st)).1 = texts events ∧
  messages (handled events ([], opened clock text st)).2
  = messages st
    ++ [userMessage clock text;
        recorded (texts events) (calls events) (assistantMessage clock)].
Proof.
  intros Hall.
  destruct (handled_error_free events [] (opened clock text st)
              (messages st ++ [userMessage clock text])
              (assistantMessage clock) eq_refl eq_refl Hall)
    as [Hfc Hmsgs].
  split; [exact Hfc|].
  rewrite Hmsgs, <- app_assoc. reflexivity.
Qed.

Lemma handled_transcript_witness :
  messages
    (handled [Sample.textEvent "Hel";
              Sample.toolEvent "function_call" "semantic_search";
              Sample.textEvent "lo"]
       ([], opened Sample.clock (js "hi") ChatStore.initial)).2
  = [userMessage Sample.clock (js "hi");
     {| id := Sample.clock.(assistantNow) + 1; role := assistant;
        content := js "Hello";
        created_at := Sample.clock.(assistantISO);
        function_calls :=
          Some [{| name := js "semantic_search";
                   args := JObject [(js "query", JString (js "invoice"))] |}] |}].
Proof.
  refine (proj2 (handled_transcript Sample.clock (js "hi") ChatStore.initial
    [Sample.textEvent "Hel";
     Sample.toolEvent "function_call" "semantic_search";
     Sample.textEvent "lo"] _)).
  repeat constructor; vm_compute; discriminate.
Defined.

End HandlerTranscript.

(** ** The chat stream client *)

Section StreamClient.
Import Sse Transcript.
Context (env : Api.Platform).

Lemma sendMessage_request {H : Type} (onEvent : Api.event → H → H)
    (conversationId message : jsstring) (w : Api.World) (s : H) :
  (Api.sendMessage env onEvent conversationId message w s).1.1
  = Api.withSent (messageRequest env conversationId message w) w.
Proof.
  unfold Api.sendMessage.
  change (Api.fetch env _)
    with (Api.fetch env (messageRequest env conversationId message w)).
  destruct (Api.fetch env _) as [response|e]; [|reflexivity].
  destruct (negb (Api.ok response)); [reflexivity|].
  destruct (Api.stream response) as [reader|]; [|reflexivity].
  destruct (Api.failure reader); reflexivity.
Qed.

(** X5. [api.sendMessage] sends exactly one request and never touches
    the stored token or the location, not even on a 401. When [fetch]
    rejects, when the response is not ok, or when it has no body, the
    callback is never called and the call throws: the rejection itself, an
    [ApiError] with the status of the response and the text "Failed to
    send message", or an [Error] "No response body". *)
Theorem sendMessage_error_paths {H : Type} (onEvent : Api.event → H → H)
    (conversationId message : jsstring) (w : Api.World) (s : H) :
  let req := messageRequest env conversationId message w in
  let out := Api.sendMessage env onEvent conversationId message w s in
  (Api.auth out.1.1 = Api.auth w ∧ Api.href out.1.1 = Api.href w ∧
   Api.sent out.1.1 = Api.sent w ++ [req]) ∧
  (∀ e, Api.fetch env req = Throw e → out.1.2 = s ∧ out.2 = Throw e) ∧
  (∀ response, Api.fetch env req = Return response →
     Api.ok response = false →
     out.1.2 = s ∧
     out.2 = Throw (ApiError (Api.status response)
                      (JString (js "Failed to send message")))) ∧
  (∀ response, Api.fetch env req = Return response →
     Api.ok response = true → Api.stream response = None →
     out.1.2 = s ∧ out.2 = Throw (Error (js "No response body"))).
Proof.
  intros req out. split; [|split; [|split]].
  - unfold out. rewrite sendMessage_request. auto.
  - intros e Hf. unfold out, Api.sendMessage.
    change (Api.fetch env _) with (Api.fetch env req). rewrite Hf. auto.
  - intros response Hf Hok. unfold out, Api.sendMessage.
    change (Api.fetch env _) with (Api.fetch env req). rewrite Hf, Hok. auto.
  - intros response Hf Hok Hs. unfold out, Api.sendMessage.
    change (Api.fetch env _) with (Api.fetch env req).
    rewrite Hf, Hok, Hs. auto.
Qed.

Lemma sendMessage_ok_body {H : Type} (onEvent : Api.event → H → H)
    (conversationId message : jsstring) (w : Api.World) (s : H)
    (response : Api.Response) (reader : Api.ReadableStream) :
  Api.fetch env (messageRequest env conversationId message w) = Return response →
  Api.ok response = true →
  Api.stream response = Some reader →
  Api.sendMessage env onEvent conversationId message w s
  = (Api.withSent (messageRequest env conversationId message w) w,
     foldl (λ s e, onEvent e s) s (Api.delivered env (Api.chunks reader)),
     match Api.failure reader with
     | None => Return ()
     | Some e => Throw e
     end).
Proof.
  intros Hf Hok Hs. unfold Api.sendMessage.
  change (Api.fetch env _)
    with (Api.fetch env (messageRequest env conversationId message w)).
  rewrite Hf, Hok, Hs. simpl. rewrite readLoop_delivered.
  destruct (Api.failure reader); reflexivity.
Qed.

(** X6. On an ok response with a body the callback has been called on
    the delivered events, in order, whether the reading ends or fails: a
    failed read throws its error after the events of the chunks read
    before it, and takes none of them back. *)
Theorem sendMessage_reads_then_settles {H : Type} (onEvent : Api.event → H → H)
    (conversationId message : jsstring) (w : Api.World) (s : H)
    (response : Api.Response) (reader : Api.ReadableStream) :
  Api.fetch env (messageRequest env conversationId message w) = Return response →
  Api.ok response = true →
  Api.stream response = Some reader →
  let out := Api.sendMessage env onEvent conversationId message w s in
  out.1.2 = foldl (λ s e, onEvent e s) s (Api.delivered env (Api.chunks reader)) ∧
  (Api.failure reader = None → out.2 = Return ()) ∧
  (∀ e, Api.failure reader = Some e → out.2 = Throw e).
Proof.
  intros Hf Hok Hs out. unfold out.
  rewrite (sendMessage_ok_body onEvent conversationId message w s
             response reader Hf Hok Hs).
  split; [reflexivity|]. split.
  - intros ->. reflexivity.
  - intros e ->. reflexivity.
Qed.

Lemma decoded_app (a b : list byte) :
  decoded env (a ++ b)
  = decoded env a
    ++ (Api.decode env (Api.decode env (Api.newTextDecoder env) a).1 b).2.
Proof. unfold decoded. rewrite decode_app. reflexivity. Qed.

Lemma expected_app (t u : jsstring) :
  expected env (t ++ u)
  = expected env t ++ omap (lineEvent env) (scan (scan [] t).2 u).1.
Proof.
  unfold expected. rewrite !completeLines_scan, scan_app. simpl.
  apply omap_app.
Qed.

(** X7. More chunks never change what has been delivered: the events
    delivered for the chunks received so far are a prefix of the events
    delivered once more chunks have arrived. *)
Theorem delivered_grows
    (values more : list (list byte)) :
  Api.delivered env values `prefix_of` Api.delivered env (values ++ more).
Proof.
  rewrite !delivered_expected, concat_app, decoded_app, expected_app.
  eexists. reflexivity.
Qed.

End StreamClient.

Section StreamClientRuns.

Lemma sendMessage_error_paths_witness :
  let out :=
    Api.sendMessage Sample.platform (λ e log, log ++ [e]) (js "c2") (js "hi")
      Sample.signedIn [] in
  out.1.2 = [] ∧ out.2 = Throw TypeError.
Proof.
  exact (proj1 (proj2 (sendMessage_error_paths Sample.platform
                         (λ e log, log ++ [e]) (js "c2") (js "hi")
                         Sample.signedIn []))
           TypeError eq_refl).
Defined.

Lemma sendMessage_reads_then_settles_witness :
  (Api.sendMessage Sample.platform (λ e log, log ++ [e]) (js "c1") (js "hi")
     Sample.signedIn []).1.2
  = [Sample.textEvent "Hel"; Sample.textEvent "lo"].
Proof.
  rewrite (proj1 (sendMessage_reads_then_settles Sample.platform
             (λ e log, log ++ [e]) (js "c1") (js "hi") Sample.signedIn []
             {| Api.status := 200; Api.json_ := None;
                Api.stream :=
                  Some {| Api.chunks := [take 20 Sample.chatBody;
                                         drop 20 Sample.chatBody];
                          Api.failure := None |} |}
             {| Api.chunks := [take 20 Sample.chatBody; drop 20 Sample.chatBody];
                Api.failure := None |}
             eq_refl eq_refl eq_refl)).
  vm_compute. reflexivity.
Defined.

End StreamClientRuns.

Section LineTolerance.

Lemma trimStart_app_space (pre s : jsstring) :
  Forall (λ c, isWhiteSpace c = true) pre → trimStart (pre ++ s) = trimStart s.
Proof.
  induction 1 as [|c pre Hc _ IH]; simpl; [reflexivity|].
  rewrite Hc. exact IH.
Qed.

Lemma trimEnd_app_space (s post : jsstring) :
  Forall (λ c, isWhiteSpace c = true) post → trimEnd (s ++ post) = trimEnd s.
Proof.
  intros Hpost. unfold trimEnd. rewrite reverse_app.
  rewrite trimStart_app_space by (apply Forall_reverse; exact Hpost).
  reflexivity.
Qed.

(** White space around a string does not show after [trim]. *)
Lemma trim_surrounded (pre s post : jsstring) :
  Forall (λ c, isWhiteSpace c = true) pre →
  Forall (λ c, isWhiteSpace c = true) post →
  trim (pre ++ s ++ post) = trim s.
Proof.
  intros Hpre Hpost. unfold trim. rewrite (trimStart_app_space _ _ Hpre).
  induction s as [|c s IH]; simpl.
  - rewrite (trimStart_nil post Hpost). reflexivity.
  - destruct (isWhiteSpace c); [exact IH|].
    apply (trimEnd_app_space (c :: s) post Hpost).
Qed.

(** X8. A line is handled the same with white space before and after
    it: in particular a carriage return before the line feed, or an
    indentation, changes nothing to the event the line gives. *)
Theorem handleLine_ignores_surrounding_space
    (env : Api.Platform) {H : Type} (onEvent : Api.event → H → H) (s : H)
    (pre line post : jsstring) :
  Forall (λ c, isWhiteSpace c = true) pre →
  Forall (λ c, isWhiteSpace c = true) post →
  Api.handleLine env onEvent s (pre ++ line ++ post)
  = Api.handleLine env onEvent s line.
Proof.
  intros Hpre Hpost. unfold Api.handleLine.
  rewrite (trim_surrounded pre line post Hpre Hpost). reflexivity.
Qed.

Lemma handleLine_ignores_surrounding_space_witness :
  let line := js "data: " ++ Sample.object2 "type" "text" "content" "Hel" in
  Api.handleLine Sample.platform (λ e log, log ++ [e]) []
    (js "  " ++ line ++ [13%N])
  = [Sample.textEvent "Hel"].
Proof.
  intros line.
  rewrite (handleLine_ignores_surrounding_space Sample.platform
             (λ e log, log ++ [e]) [] (js "  ") line [13%N]).
  - vm_compute. reflexivity.
  - repeat constructor.
  - repeat constructor.
Defined.

End LineTolerance.

(** ** The chat page, once the guard has passed *)

Section ChatAccepted.
Import ChatStore Chat Transcript.

Lemma refused_false_conversation (page : Page) :
  refused page = false → ∃ conversation, currentConversation (store page) = Some conversation.
Proof.
  unfold refused. destruct (currentConversation (store page)) as [conv|]; [eauto|].
  intros Hguard. rewrite bool_decide_eq_false_2 in Hguard
    by (intros [? ?]; discriminate).
  simpl in Hguard. rewrite orb_true_r in Hguard. discriminate.
Qed.

(** X9. When the guard lets it pass, [sendMessage] adds exactly two
    messages after the ones there were, the user message with the input
    as typed and the assistant message, whatever the server answers;
    it keeps the conversation, empties the input box and sends one
    request, a POST of the typed text to the messages of the current
    conversation, without touching the token or the location. *)
Theorem sendMessage_accepted
    (env : Api.Platform) (clock : Clock) (page : Page) :
  refused page = false →
  ∃ conversation x,
    currentConversation (store page) = Some conversation ∧
    messages (store (sendMessage env clock page))
    = messages (store page) ++ [userMessage clock (input page); x] ∧
    header x = header (assistantMessage clock) ∧
    currentConversation (store (sendMessage env clock page))
    = Some conversation ∧
    input (sendMessage env clock page) = [] ∧
    world (sendMessage env clock page)
    = Api.withSent
        (messageRequest env (conversation_id conversation) (input page)
           (world page))
        (world page).
Proof.
  intros Hguard.
  destruct (refused_false_conversation page Hguard) as [conversation Hconv].
  exists conversation.
  pose proof (sendMessage_request env onEvent (conversation_id conversation)
                (input page) (world page)
                ([], opened clock (input page) (store page))) as Hworld.
  destruct (sendMessage_handled env (conversation_id conversation)
              (input page) (world page)
              ([], opened clock (input page) (store page)))
    as [events Hevents].
  destruct (handled_last events [] (opened clock (input page) (store page))
              (messages (store page) ++ [userMessage clock (input page)])
              (assistantMessage clock) eq_refl)
    as (x & Hmsgs & Hx).
  pose proof (handled_framed events []
                (opened clock (input page) (store page))) as (Hcur & _).
  unfold sendMessage. rewrite Hguard, Hconv.
  destruct (Api.sendMessage env onEvent (conversation_id conversation)
              (input page) (world page)
              ([], opened clock (input page) (store page)))
    as [[w [fc st]] settled].
  simpl in Hworld, Hevents. rewrite <- Hevents in Hmsgs, Hcur.
  simpl in Hmsgs, Hcur. subst w.
  destruct settled as [[]|error]; cbv beta iota zeta;
    cbn [store input world messages currentConversation setStreaming].
  - exists x. rewrite Hmsgs, <- app_assoc, Hcur. simpl. rewrite Hconv.
    repeat split; exact Hx.
  - exists (withContent apology x).
    rewrite (updateLastMessage_snoc apology st _ x Hmsgs), <- app_assoc.
    unfold updateLastMessage. simpl. rewrite Hcur. simpl. rewrite Hconv.
    repeat split; exact Hx.
Qed.

Lemma sendMessage_accepted_witness :
  ∃ x,
    messages (store (sendMessage Sample.platform Sample.clock
                       (Sample.page "hi" false)))
    = [userMessage Sample.clock (js "hi"); x] ∧
    header x = header (assistantMessage Sample.clock).
Proof.
  destruct (sendMessage_accepted Sample.platform Sample.clock
              (Sample.page "hi" false) eq_refl)
    as (conversation & x & _ & Hmsgs & Hx & _).
  exists x. split; [exact Hmsgs | exact Hx].
Defined.

End ChatAccepted.

(** ** The poller and the refetch interval together *)

Section PollerAndInterval.
Import ApiTypes TaskStatusPoller UseMedia.

Lemma checkTaskStatus_known (d : TaskStatus) :
  (status d = js "completed" ∧ checkTaskStatus (Some d) = Some (js "done")) ∨
  (status d = js "failed" ∧ checkTaskStatus (Some d) = Some (js "failed")) ∨
  (status d = js "pending" ∧ checkTaskStatus (Some d) = Some (js "pending")) ∨
  (status d ≠ js "completed" ∧ status d ≠ js "failed" ∧
   status d ≠ js "pending" ∧
   checkTaskStatus (Some d) = Some (js "processing")).
Proof.
  unfold checkTaskStatus.
  destruct (decide (status d = js "completed")) as [E|N1];
    [left; rewrite E; auto|].
  destruct (decide (status d = js "failed")) as [E|N2];
    [right; left; rewrite E; auto|].
  destruct (decide (status d = js "pending")) as [E|N3];
    [right; right; left; rewrite E; auto|].
  right; right; right.
  rewrite !bool_decide_eq_false_2 by assumption. auto.
Qed.

(** X10. The status the poller reports and the decision to poll on go
    together: while the interval is on, the poller reports "pending" or
    "processing"; when it reports "done" or "failed", the interval is off.
    On a status outside the four known ones the interval is off and the
    poller reports "processing", now and after any later tick. *)
Theorem poller_and_interval (d : TaskStatus) :
  (∀ ms, refetchInterval (Some d) = Every ms →
     checkTaskStatus (Some d) = Some (js "pending") ∨
     checkTaskStatus (Some d) = Some (js "processing")) ∧
  (checkTaskStatus (Some d) = Some (js "done") ∨
   checkTaskStatus (Some d) = Some (js "failed") →
   refetchInterval (Some d) = Off) ∧
  (status d ≠ js "completed" → status d ≠ js "failed" →
   status d ≠ js "pending" → status d ≠ js "processing" →
   ∀ answers,
     refetchInterval (Some d) = Off ∧
     checkTaskStatus (poll (Some d) answers) = Some (js "processing")).
Proof.
  split; [|split].
  - intros ms [_ [E | E]]%refetchInterval_every;
      unfold checkTaskStatus; rewrite E; auto.
  - intros Hreport. apply refetchInterval_off.
    destruct (checkTaskStatus_known d)
      as [[E _] | [[E _] | [[_ R] | (_ & _ & _ & R)]]].
    + rewrite E. split; vm_compute; discriminate.
    + rewrite E. split; vm_compute; discriminate.
    + rewrite R in Hreport.
      destruct Hreport as [C | C]; vm_compute in C; discriminate C.
    + rewrite R in Hreport.
      destruct Hreport as [C | C]; vm_compute in C; discriminate C.
  - intros N1 N2 N3 N4 answers.
    assert (Hoff : refetchInterval (Some d) = Off)
      by (apply refetchInterval_off; auto).
    split; [exact Hoff|]. rewrite (poll_off _ answers Hoff).
    unfold checkTaskStatus. rewrite !bool_decide_eq_false_2 by assumption.
    reflexivity.
Qed.

Lemma poller_and_interval_witness :
  let d := {| task_id := js "t1"; status := js "queued"; result := None |} in
  let later := {| task_id := js "t1"; status := js "completed"; result := None |} in
  refetchInterval (Some d) = Off ∧
  checkTaskStatus (poll (Some d) [later]) = Some (js "processing").
Proof.
  intros d later.
  apply (proj2 (proj2 (poller_and_interval d))); vm_compute; discriminate.
Defined.

Lemma tick_polling (d answer : TaskStatus) :
  status d = js "pending" ∨ status d = js "processing" →
  tick (Some d) answer = Some answer.
Proof.
  intros Hd. unfold tick.
  assert (E : refetchInterval (Some d) = Every 2000)
    by (apply refetchInterval_every; auto).
  rewrite E. reflexivity.
Qed.

(** X11. Polling ends at the first answer that is neither "pending" nor
    "processing": the data stay that answer, and what the server would
    have answered afterwards is never fetched. *)
Theorem poll_stops_at_first_settled
    (d settled : TaskStatus) (waiting later : list TaskStatus) :
  status d = js "pending" ∨ status d = js "processing" →
  Forall (λ a, status a = js "pending" ∨ status a = js "processing") waiting →
  status settled ≠ js "pending" → status settled ≠ js "processing" →
  poll (Some d) (waiting ++ settled :: later) = Some settled.
Proof.
  intros Hd Hwaiting N1 N2. revert d Hd.
  induction Hwaiting as [|a waiting Ha _ IH]; intros d Hd.
  - change (poll (Some d) ([] ++ settled :: later))
      with (poll (tick (Some d) settled) later).
    rewrite (tick_polling d settled Hd).
    apply poll_off, refetchInterval_off. auto.
  - change (poll (Some d) ((a :: waiting) ++ settled :: later))
      with (poll (tick (Some d) a) (waiting ++ settled :: later)).
    rewrite (tick_polling d a Hd). apply IH, Ha.
Qed.

Lemma poll_stops_at_first_settled_witness :
  let task s := {| task_id := js "t1"; status := s; result := None |} in
  poll (Some (task (js "pending")))
    ([task (js "pending"); task (js "processing")]
     ++ task (js "failed") :: [task (js "completed")])
  = Some (task (js "failed")).
Proof.
  intros task.
  apply (poll_stops_at_first_settled (task (js "pending")) (task (js "failed"))
           [task (js "pending"); task (js "processing")]
           [task (js "completed")]).
  - left. reflexivity.
  - constructor; [left; reflexivity|].
    constructor; [right; reflexivity|]. constructor.
  - vm_compute. discriminate.
  - vm_compute. discriminate.
Defined.

End PollerAndInterval.

(** ** The media store *)

Section MediaStoreLaws.
Import MediaStore.



(** X13. A status update for a task id that no file carries leaves the
    store as it is; files without a task id are never touched. After an
    update every file of the task has the new status, and no file has
    changed in anything but its status. *)
Theorem updateFileStatus_touches_the_task_only
    (t s : jsstring) (st : MediaState) :
  (Forall (λ f, task_id f ≠ Some t) (files st) →
   updateFileStatus t s st = st) ∧
  Forall (λ f, task_id f = Some t → status f = s)
    (files (updateFileStatus t s st)) ∧
  (λ f, withStatus [] f) <$> files (updateFileStatus t s st)
  = (λ f, withStatus [] f) <$> files st ∧
  isLoading (updateFileStatus t s st) = isLoading st.
Proof.
  split; [|split; [|split]].
  - intros Hnone. destruct st as [fs loading].
    unfold updateFileStatus, setFiles. cbn [files isLoading] in *. f_equal.
    induction Hnone as [|f fs Hf _ IH]; [reflexivity|].
    rewrite fmap_cons, (bool_decide_eq_false_2 _ Hf), IH. reflexivity.
  - unfold updateFileStatus. simpl. apply Forall_fmap, Forall_true.
    intros f. simpl. case_bool_decide; simpl; [reflexivity | contradiction].
  - unfold updateFileStatus. simpl. rewrite <- list_fmap_compose.
    apply list_fmap_ext. intros i f _. simpl. case_bool_decide; reflexivity.
  - reflexivity.
Qed.

Lemma updateFileStatus_touches_the_task_only_witness :
  let st :=
    {| files :=
         [{| media_id := js "m"; file_name := js "a.png";
             file_type := js "image/png"; file_size := 10;
             storage_url := js "/a.png"; status := js "processing";
             created_at := js "2025-01-01"; task_id := None |}];
       isLoading := true |} in
  updateFileStatus (js "t1") (js "ready") st = st.
Proof.
  intros st.
  apply (proj1 (updateFileStatus_touches_the_task_only (js "t1") (js "ready") st)).
  repeat constructor. discriminate.
Defined.

End MediaStoreLaws.

(** ** The upload page *)

Section UploadList.
Import Upload.

Lemma imap_same {A} (l : list A) : imap (λ _ x, x) l = l.
Proof.
  induction l as [|x l IH]; simpl; [reflexivity|]. f_equal. exact IH.
Qed.

Lemma inBatch_before (before batch : list UploadingFile) (idx : nat) :
  (idx < length before)%nat →
  inBatch (length batch) (before ++ batch) idx = false.
Proof.
  intros Hidx. unfold inBatch. rewrite length_app. apply Z.leb_gt. lia.
Qed.

Lemma inBatch_inside (before batch : list UploadingFile) (i : nat) :
  inBatch (length batch) (before ++ batch) (length before + i) = true.
Proof.
  unfold inBatch. rewrite length_app. apply Z.leb_le. lia.
Qed.

Lemma batch_position (before batch : list UploadingFile) (i : nat) :
  Z.to_nat (Z.of_nat (length before + i)
            - (Z.of_nat (length (before ++ batch)) - Z.of_nat (length batch)))
  = i.
Proof. rewrite length_app. lia. Qed.

Lemma uploaded_app (media : list UploadedMedia)
    (before batch : list UploadingFile) :
  uploaded (length batch) media (before ++ batch)
  = before
    ++ imap (λ i uf, {| file := file uf; status := js "processing";
                        progress := 100;
                        taskId := task_id <$> media !! i |}) batch.
Proof.
  unfold uploaded. rewrite imap_app. f_equal.
  - transitivity (imap (λ _ uf, uf) before); [|apply imap_same].
    apply imap_ext. intros i uf Hi. apply lookup_lt_Some in Hi.
    rewrite (inBatch_before before batch i Hi). reflexivity.
  - apply imap_ext. intros i uf _. simpl.
    rewrite inBatch_inside, batch_position. reflexivity.
Qed.

Lemma failedUpload_app (before batch : list UploadingFile) :
  failedUpload (length batch) (before ++ batch)
  = before
    ++ ((λ uf, {| file := file uf; status := js "failed"; progress := 100;
                  taskId := taskId uf |}) <$> batch).
Proof.
  unfold failedUpload. rewrite imap_app. f_equal.
  - transitivity (imap (λ _ uf, uf) before); [|apply imap_same].
    apply imap_ext. intros i uf Hi. apply lookup_lt_Some in Hi.
    rewrite (inBatch_before before batch i Hi). reflexivity.
  - rewrite <- imap_const. apply imap_ext. intros i uf _. simpl.
    rewrite inBatch_inside. reflexivity.
Qed.

(** X14. The updaters run when an upload has answered or thrown find
    their batch by counting from the end of the list: they rewrite the
    last [n] entries, whichever these are, and leave every entry before
    them as it is. The i-th of the last [n] entries takes the task id of
    the i-th entry of [response.media], or none when the response is
    shorter. *)
Theorem upload_updaters_rewrite_the_tail
    (media : list UploadedMedia) (before batch : list UploadingFile) :
  uploaded (length batch) media (before ++ batch)
  = before
    ++ imap (λ i uf, {| file := file uf; status := js "processing";
                        progress := 100;
                        taskId := task_id <$> media !! i |}) batch ∧
  failedUpload (length batch) (before ++ batch)
  = before
    ++ ((λ uf, {| file := file uf; status := js "failed"; progress := 100;
                  taskId := taskId uf |}) <$> batch).
Proof.
  split; [apply uploaded_app | apply failedUpload_app].
Qed.

(** X15. [handleFiles] appends one entry per file, in order, after the
    entries there were. When the upload answers, each new entry is
    "processing" at progress 100 with the task id found at its position in
    the answer; when it throws, each new entry is "failed" at progress 100
    with no task id. The entries there were are not changed. *)
Theorem handleFiles_outcome
    (files : list File) (prev : list UploadingFile)
    (media : list UploadedMedia) (e : exn) :
  handleFiles (Return media) files prev
  = prev
    ++ imap (λ i f, {| file := f; status := js "processing"; progress := 100;
                       taskId := task_id <$> media !! i |}) files ∧
  handleFiles (Throw e) files prev
  = prev
    ++ ((λ f, {| file := f; status := js "failed"; progress := 100;
                 taskId := None |}) <$> files).
Proof.
  unfold handleFiles. split.
  - rewrite uploaded_app. f_equal. unfold pendingFiles.
    rewrite imap_fmap. reflexivity.
  - rewrite failedUpload_app. f_equal. unfold pendingFiles.
    rewrite <- list_fmap_compose. reflexivity.
Qed.

Lemma Forall_imap_of {A} (P : A → Prop) (f : nat → A → A) (l : list A) :
  (∀ i x, P x → P (f i x)) → Forall P l → Forall P (imap f l).
Proof.
  intros Hf Hl. revert f Hf.
  induction Hl as [|x l Hx _ IH]; intros f Hf; simpl; constructor.
  - apply Hf, Hx.
  - apply IH. intros i y. apply Hf.
Qed.

(** X16. The progress shown stays between 0 and 100: new entries start
    at 0, and neither a tick of the progress timer, nor the answer or the
    failure of the upload, nor a status reported by a poller takes an
    entry out of that range; none of them changes the number of
    entries. *)
Theorem upload_progress_in_range
    (n index : nat) (media : list UploadedMedia) (s : jsstring)
    (files : list File) (prev : list UploadingFile) :
  Forall (λ uf, 0 ≤ progress uf ≤ 100) (pendingFiles files) ∧
  (∀ update,
     update = progressTick n index ∨ update = uploaded n media ∨
     update = failedUpload n ∨ update = statusChanged index s →
     length (update prev) = length prev ∧
     (Forall (λ uf, 0 ≤ progress uf ≤ 100) prev →
      Forall (λ uf, 0 ≤ progress uf ≤ 100) (update prev))).
Proof.
  split.
  - unfold pendingFiles. apply Forall_fmap, Forall_true. intros f. simpl. lia.
  - intros update [-> | [-> | [-> | ->]]].
    + unfold progressTick.
      destruct (_ <? 0); [auto|].
      destruct (prev !! _) as [uf|] eqn:Hlook; [|auto].
      destruct (progress uf <? 90) eqn:Hlt; [|auto].
      split; [apply length_insert|].
      intros Hprev. apply Forall_insert; [exact Hprev|]. simpl.
      apply Z.ltb_lt in Hlt.
      pose proof (proj1 (Forall_lookup _ _) Hprev _ _ Hlook) as Huf.
      simpl in Huf. lia.
    + split; [apply length_imap|]. apply Forall_imap_of.
      intros i uf Huf. destruct (inBatch n prev i); simpl; [lia | exact Huf].
    + split; [apply length_imap|]. apply Forall_imap_of.
      intros i uf Huf. destruct (inBatch n prev i); simpl; [lia | exact Huf].
    + split; [apply length_imap|]. apply Forall_imap_of.
      intros i uf Huf. case_bool_decide; simpl; exact Huf.
Qed.

Lemma upload_progress_in_range_witness :
  let prev := pendingFiles [{| name := js "a.png"; size := 10 |}] in
  Forall (λ uf, 0 ≤ progress uf ≤ 100) (progressTick 1 0 prev).
Proof.
  intros prev.
  destruct (upload_progress_in_range 1 0 [] (js "done")
              [{| name := js "a.png"; size := 10 |}] prev)
    as [Hnew Hkeep].
  apply (Hkeep (progressTick 1 0)); [left; reflexivity | exact Hnew].
Defined.

Lemma imap_at {A} (g : A → A) (l : list A) (index : nat) :
  imap (λ idx x, if bool_decide (idx = index) then g x else x) l
  = alter g index l.
Proof.
  revert index. induction l as [|x l IH]; intros index; [reflexivity|].
  destruct index as [|index].
  - change (g x :: imap (λ idx y, if bool_decide (S idx = 0%nat) then g y else y) l
            = g x :: l).
    f_equal. transitivity (imap (λ _ y, y) l); [|apply imap_same].
    apply imap_ext. intros i y _.
    rewrite bool_decide_eq_false_2 by discriminate. reflexivity.
  - change (x :: imap (λ idx y, if bool_decide (S idx = S index) then g y else y) l
            = x :: alter g index l).
    f_equal. rewrite <- (IH index). apply imap_ext. intros i y _.
    rewrite (bool_decide_ext (S i = S index) (i = index)) by lia.
    reflexivity.
Qed.

Lemma alter_past_end {A} (g : A → A) (l : list A) (index : nat) :
  (length l ≤ index)%nat → alter g index l = l.
Proof.
  revert index. induction l as [|x l IH]; intros index Hlen; [reflexivity|].
  destruct index as [|index]; simpl in Hlen; [lia|].
  change (x :: alter g index l = x :: l). f_equal. apply IH. lia.
Qed.

(** X17. What a poller reports reaches only the entry it is shown for:
    with no data nothing changes; with data the entry at its index takes
    one of the statuses "pending", "processing", "done" and "failed" and
    keeps its file, progress and task id; an index past the end changes
    nothing. *)
Theorem polled_changes_one_status
    (index : nat) (t : ApiTypes.TaskStatus) (prev : list UploadingFile) :
  polled index None prev = prev ∧
  (∃ s,
     (s = js "pending" ∨ s = js "processing" ∨ s = js "done" ∨ s = js "failed") ∧
     polled index (Some t) prev
     = alter (λ uf, {| file := file uf; status := s; progress := progress uf;
                       taskId := taskId uf |}) index prev) ∧
  ((length prev ≤ index)%nat → polled index (Some t) prev = prev).
Proof.
  split; [reflexivity|]. split.
  - unfold polled, TaskStatusPoller.checkTaskStatus.
    eexists. split; [|unfold statusChanged; apply imap_at].
    repeat case_bool_decide; auto.
  - intros Hlen. unfold polled, TaskStatusPoller.checkTaskStatus, statusChanged.
    rewrite imap_at. apply alter_past_end. exact Hlen.
Qed.

Lemma polled_changes_one_status_witness :
  polled 3
    (Some {| ApiTypes.task_id := js "t1"; ApiTypes.status := js "completed";
             ApiTypes.result := None |})
    (pendingFiles [{| name := js "a.png"; size := 10 |}])
  = pendingFiles [{| name := js "a.png"; size := 10 |}].
Proof.
  apply (proj2 (proj2 (polled_changes_one_status 3 _ _))). simpl. lia.
Defined.

End UploadList.

(** ** The library page *)

Section LibraryIcons.
Import Library.

Ltac clash :=
  match goal with
  | H : js _ = js _ |- _ => vm_compute in H; discriminate H
  | H : @eq Icon _ _ |- _ => discriminate H
  end.

(** X18. Icon and colour of a file type go together: a type gets the
    image icon exactly when it gets the blue colour and the audio icon
    exactly when it gets the purple one; a type shown in red has the text
    icon, and a type with the plain file icon is shown in grey. A type
    that mentions "document" but not "pdf" has the text icon in grey. *)
Theorem icon_and_colour (fileType : jsstring) :
  (getFileIcon fileType = Image ↔
   getFileTypeColor fileType = js "text-blue-500") ∧
  (getFileIcon fileType = FileAudio ↔
   getFileTypeColor fileType = js "text-purple-500") ∧
  (getFileTypeColor fileType = js "text-red-500" →
   getFileIcon fileType = FileText) ∧
  (getFileIcon fileType = File →
   getFileTypeColor fileType = js "text-gray-500") ∧
  (startsWith fileType (js "image/") = false →
   startsWith fileType (js "audio/") = false →
   includes fileType (js "pdf") = false →
   includes fileType (js "document") = true →
   getFileIcon fileType = FileText ∧
   getFileTypeColor fileType = js "text-gray-500").
Proof.
  unfold getFileIcon, getFileTypeColor.
  destruct (startsWith fileType (js "image/"));
    destruct (startsWith fileType (js "audio/"));
    destruct (includes fileType (js "pdf"));
    destruct (includes fileType (js "document")); simpl;
    repeat split; intros; try reflexivity; try discriminate; clash.
Qed.

Lemma icon_and_colour_witness :
  let fileType :=
    js "application/vnd.openxmlformats-officedocument.wordprocessingml.document" in
  getFileIcon fileType = FileText ∧
  getFileTypeColor fileType = js "text-gray-500".
Proof.
  intros fileType.
  apply (proj2 (proj2 (proj2 (proj2 (icon_and_colour fileType)))));
    vm_compute; reflexivity.
Defined.

End LibraryIcons.

(** ** The calls of the API client *)

Section ClientCalls.
Import Api ApiCalls.

Lemma request_world (env : Platform) (endpoint : jsstring)
    (options : RequestInit) (w : World) :
  (request env endpoint options w).1
  = match fetch env (outgoing env endpoint options w) with
    | Return response =>
        if bool_decide (status response = 401)
        then withHref (js "/login")
               (withAuth (AuthStore.logout (auth w))
                  (withSent (outgoing env endpoint options w) w))
        else withSent (outgoing env endpoint options w) w
    | Throw _ => withSent (outgoing env endpoint options w) w
    end.
Proof.
  unfold request.
  destruct (fetch env _) as [response|e]; [|reflexivity].
  case_bool_decide; [reflexivity|].
  destruct (negb (ok response)); [|reflexivity].
  destruct (detailOr _ _); reflexivity.
Qed.

Lemma request_sends_once_aux (env : Platform) (endpoint : jsstring)
    (options : RequestInit) (w : World) :
  sent (request env endpoint options w).1
  = sent w ++ [outgoing env endpoint options w].
Proof.
  rewrite request_world.
  destruct (fetch env _) as [response|e]; [|reflexivity].
  case_bool_decide; reflexivity.
Qed.

(** X19. [request] sends exactly one request, whatever comes back, and
    never retries. When the answer has status 401, whatever the endpoint,
    it clears the token, lowers [isAuthenticated] and sets the location
    to the login route; on every other answer, and when [fetch] rejects,
    it leaves the stored token and the location as they were. *)
Theorem request_sends_once (env : Platform) (endpoint : jsstring)
    (options : RequestInit) (w : World) :
  sent (request env endpoint options w).1
  = sent w ++ [outgoing env endpoint options w] ∧
  (request env endpoint options w).1
  = match fetch env (outgoing env endpoint options w) with
    | Return response =>
        if bool_decide (status response = 401)
        then {| auth := {| AuthStore.token := None;
                           AuthStore.isAuthenticated := false |};
                href := js "/login";
                sent := sent w ++ [outgoing env endpoint options w] |}
        else {| auth := auth w; href := href w;
                sent := sent w ++ [outgoing env endpoint options w] |}
    | Throw _ =>
        {| auth := auth w; href := href w;
           sent := sent w ++ [outgoing env endpoint options w] |}
    end.
Proof.
  split; [apply request_sends_once_aux|].
  rewrite request_world.
  destruct (fetch env _) as [response|e]; [|reflexivity].
  case_bool_decide; reflexivity.
Qed.

(** X20. An upload goes out as a POST of the [FormData] with no
    Content-Type header of the client's, so that the browser can set the
    multipart boundary, and with the bearer token when one is stored and
    non-empty; a login goes out as a POST of the JSON of the credentials
    with Content-Type application/json. *)
Theorem upload_and_login_requests (env : Platform) (bodyError : exn)
    (files : list jsstring) (email password : jsstring) (w : World) :
  sent (uploadMedia env bodyError files w).1
  = sent w
    ++ [{| url := API_BASE_URL env ++ js "/api/media/upload";
           method := Some (js "POST");
           headers :=
             if truthyString (AuthStore.token (auth w))
             then {[js "Authorization" := bearer (AuthStore.token (auth w))]}
             else ∅;
           body := Some (FormData files) |}] ∧
  sent (login env bodyError email password w).1
  = sent w
    ++ [{| url := API_BASE_URL env ++ js "/auth/login";
           method := Some (js "POST");
           headers :=
             <[js "Content-Type" := js "application/json"]>
               (if truthyString (AuthStore.token (auth w))
                then {[js "Authorization" := bearer (AuthStore.token (auth w))]}
                else ∅);
           body :=
             Some (Stringified
                     (JObject [(js "email", JString email);
                               (js "password", JString password)])) |}].
Proof.
  assert (Hsent : ∀ endpoint data,
    sent (post env bodyError endpoint data w).1
    = sent w ++ [outgoing env endpoint
                   {| init_method := Some (js "POST"); init_headers := ∅;
                      init_body := postBody data |} w]).
  { intros endpoint data. unfold post.
    pose proof (request_sends_once_aux env endpoint
                  {| init_method := Some (js "POST"); init_headers := ∅;
                     init_body := postBody data |} w) as Hs.
    destruct (request env endpoint _ w) as [w' [response|e]]; exact Hs. }
  split.
  - unfold uploadMedia. rewrite Hsent. unfold outgoing. simpl.
    destruct (truthyString (AuthStore.token (auth w)));
      rewrite ?insert_empty; reflexivity.
  - unfold login. rewrite Hsent. unfold outgoing. simpl.
    destruct (truthyString (AuthStore.token (auth w)));
      rewrite ?insert_empty; reflexivity.
Qed.

End ClientCalls.

Section ClientReads.
Import Api ApiCalls.

Lemma request_ok (env : Platform) (endpoint : jsstring)
    (options : RequestInit) (w : World) (response : Response) :
  fetch env (outgoing env endpoint options w) = Return response →
  ok response = true →
  (request env endpoint options w).2 = Return response.
Proof.
  intros Hfetch Hok. unfold request. rewrite Hfetch.
  rewrite bool_decide_eq_false_2 by (apply ok_not_unauthorized, Hok).
  rewrite Hok. reflexivity.
Qed.

Lemma request_not_ok (env : Platform) (endpoint : jsstring)
    (options : RequestInit) (w : World) (response : Response) :
  fetch env (outgoing env endpoint options w) = Return response →
  ok response = false →
  ∃ e, (request env endpoint options w).2 = Throw e.
Proof.
  intros Hfetch Hok. unfold request. rewrite Hfetch, Hok.
  case_bool_decide; [eauto|]. simpl.
  destruct (detailOr _ _); eauto.
Qed.

(** X21. [get] resolves exactly when the response is ok and its body
    is JSON, and then with the parsed body; on an ok response whose body
    is not JSON it throws what [response.json()] rejects with. [delete]
    resolves on every ok response, with or without a body, since it never
    reads it. *)
Theorem get_and_delete_settle (env : Platform) (bodyError : exn)
    (endpoint : jsstring) (w : World) :
  (∀ response,
     fetch env (outgoing env endpoint noOptions w) = Return response →
     (∀ v, (get env bodyError endpoint w).2 = Return v ↔
           ok response = true ∧ json_ response = Some v) ∧
     (ok response = true → json_ response = None →
      (get env bodyError endpoint w).2 = Throw bodyError)) ∧
  (∀ response,
     fetch env (outgoing env endpoint
                  {| init_method := Some (js "DELETE"); init_headers := ∅;
                     init_body := None |} w) = Return response →
     ((delete env endpoint w).2 = Return () ↔ ok response = true)).
Proof.
  split.
  - intros response Hfetch.
    assert (Hget : (get env bodyError endpoint w).2
                   = match (request env endpoint noOptions w).2 with
                     | Return r => bodyJson bodyError r
                     | Throw e => Throw e
                     end).
    { unfold get. destruct (request env endpoint noOptions w) as [w' [r|e]];
        reflexivity. }
    rewrite Hget. destruct (ok response) eqn:Hok.
    + rewrite (request_ok env endpoint noOptions w response Hfetch Hok).
      unfold bodyJson. destruct (json_ response) as [v'|].
      * split; [|discriminate]. intros v. split; [intros [= ->]; auto|].
        intros [_ [= ->]]. reflexivity.
      * split; [|reflexivity]. intros v. split; [discriminate|].
        intros [_ C]. discriminate C.
    + destruct (request_not_ok env endpoint noOptions w response Hfetch Hok)
        as [e He].
      rewrite He. split; [|discriminate]. intros v.
      split; [discriminate|]. intros [C _]. discriminate C.
  - intros response Hfetch.
    assert (Hdel : (delete env endpoint w).2
                   = match (request env endpoint
                              {| init_method := Some (js "DELETE");
                                 init_headers := ∅; init_body := None |} w).2 with
                     | Return _ => Return ()
                     | Throw e => Throw e
                     end).
    { unfold delete. destruct (request env endpoint _ w) as [w' [r|e]];
        reflexivity. }
    rewrite Hdel. destruct (ok response) eqn:Hok.
    + rewrite (request_ok env endpoint _ w response Hfetch Hok). tauto.
    + destruct (request_not_ok env endpoint _ w response Hfetch Hok) as [e He].
      rewrite He. split; discriminate.
Qed.

Lemma get_and_delete_settle_witness :
  (getTaskStatus Demo.platform Demo.syntaxError (js "t1") Sample.signedIn).2
  = Return Demo.taskBody ∧
  (deleteConversation Demo.platform (js "c1") Sample.signedIn).2 = Return ().
Proof.
  split.
  - apply (proj1 (proj1 (get_and_delete_settle Demo.platform Demo.syntaxError
                           (js "/api/media/status/" ++ js "t1") Sample.signedIn)
                   {| status := 200; json_ := Some Demo.taskBody;
                      stream := None |} eq_refl) Demo.taskBody).
    split; reflexivity.
  - apply (proj2 (get_and_delete_settle Demo.platform Demo.syntaxError
                    (js "/api/chat/conversations/" ++ js "c1") Sample.signedIn)
             {| status := 204; json_ := None; stream := None |} eq_refl).
    reflexivity.
Defined.

End ClientReads.

(** ** The dashboard layout *)

Section LayoutHandlers.
Import ChatStore DashboardLayout.

(** X22. Confirming a deletion with none pending does nothing and sends
    nothing. With one pending, the dialog is closed and the pending
    conversation forgotten whether the deletion succeeds or throws, and a
    thrown error goes on to the caller; the current conversation and its
    messages are dropped exactly when the deletion succeeded and the
    deleted conversation is the current one, and the store is not touched
    otherwise. One DELETE request for the conversation is sent. *)
Theorem confirmDeleteConversation_settles (env : Api.Platform) (l : Layout) :
  (conversationToDelete l = None →
   confirmDeleteConversation env l = (l, Return ())) ∧
  (∀ c, conversationToDelete l = Some c →
     let out := confirmDeleteConversation env l in
     let deleted := ApiCalls.deleteConversation env (conversation_id c) (world l) in
     deleteDialogOpen out.1 = false ∧
     conversationToDelete out.1 = None ∧
     route out.1 = route l ∧
     world out.1 = deleted.1 ∧ out.2 = deleted.2 ∧
     store out.1
     = match deleted.2 with
       | Return _ =>
           if isCurrent (currentConversation (store l)) c
           then {| currentConversation := None; messages := [];
                   isStreaming := isStreaming (store l) |}
           else store l
       | Throw _ => store l
       end ∧
     Api.sent (world out.1)
     = Api.sent (world l)
       ++ [Api.outgoing env (js "/api/chat/conversations/" ++ conversation_id c)
             {| Api.init_method := Some (js "DELETE"); Api.init_headers := ∅;
                Api.init_body := None |} (world l)]).
Proof.
  split.
  - intros Hnone. unfold confirmDeleteConversation. rewrite Hnone. reflexivity.
  - intros c Hsome out deleted.
    assert (Hsent : Api.sent deleted.1
                    = Api.sent (world l)
                      ++ [Api.outgoing env
                            (js "/api/chat/conversations/" ++ conversation_id c)
                            {| Api.init_method := Some (js "DELETE");
                               Api.init_headers := ∅;
                               Api.init_body := None |} (world l)]).
    { unfold deleted, ApiCalls.deleteConversation, ApiCalls.delete.
      pose proof (request_sends_once_aux env
                    (js "/api/chat/conversations/" ++ conversation_id c)
                    {| Api.init_method := Some (js "DELETE");
                       Api.init_headers := ∅; Api.init_body := None |}
                    (world l)) as Hs.
      destruct (Api.request env _ _ (world l)) as [w' [r|e]]; exact Hs. }
    unfold out, confirmDeleteConversation. rewrite Hsome. fold deleted.
    destruct deleted as [w' [[]|e]]; simpl in *; repeat split; try exact Hsent.
Qed.

Lemma confirmDeleteConversation_settles_witness :
  let out :=
    confirmDeleteConversation Demo.platform
      (Demo.layout (Some Sample.conversation) (Some Sample.conversation)) in
  deleteDialogOpen out.1 = false ∧
  currentConversation (store out.1) = None ∧
  messages (store out.1) = [].
Proof.
  intros out.
  destruct (proj2 (confirmDeleteConversation_settles Demo.platform
                     (Demo.layout (Some Sample.conversation)
                        (Some Sample.conversation)))
              Sample.conversation eq_refl)
    as (Hopen & _ & _ & _ & _ & Hstore & _).
  fold out in Hopen, Hstore. split; [exact Hopen|].
  rewrite Hstore. vm_compute. auto.
Defined.

End LayoutHandlers.

(** ** After a 401 *)

Section SignedOut.
Import Api Transcript.

(** X23. Once [request] has met a 401 the token is gone: the later
    requests of [request] carry no Authorization header but the caller's
    own, while [sendMessage], which does not test the token, sends the
    header "Bearer null". *)
Theorem requests_after_unauthorized (env : Platform) (endpoint : jsstring)
    (options : RequestInit) (w : World) (response : Response) :
  fetch env (outgoing env endpoint options w) = Return response →
  status response = 401 →
  (∀ endpoint' options',
     headers (outgoing env endpoint' options' (request env endpoint options w).1)
       !! js "Authorization"
     = init_headers options' !! js "Authorization") ∧
  (∀ conversationId message,
     headers (messageRequest env conversationId message
                (request env endpoint options w).1)
       !! js "Authorization"
     = Some (js "Bearer null")).
Proof.
  intros Hfetch Hstatus.
  assert (Htoken : AuthStore.token (auth (request env endpoint options w).1) = None).
  { rewrite request_world, Hfetch, (bool_decide_eq_true_2 _ Hstatus).
    reflexivity. }
  assert (Hkeys : js "Content-Type" ≠ js "Authorization")
    by (vm_compute; discriminate).
  split.
  - intros endpoint' options'. unfold outgoing. rewrite Htoken. simpl.
    destruct (init_body options') as [[files|v]|]; simpl;
      rewrite ?(lookup_insert_ne _ _ _ _ Hkeys); reflexivity.
  - intros conversationId message. unfold messageRequest. rewrite Htoken. simpl.
    rewrite (lookup_insert_ne _ _ _ _ Hkeys). apply lookup_singleton_eq.
Qed.

Lemma requests_after_unauthorized_witness :
  headers (messageRequest Demo.platform (js "c1") (js "hi")
             (request Demo.platform (js "/api/media/list") ApiCalls.noOptions
                Sample.signedIn).1)
    !! js "Authorization"
  = Some (js "Bearer null").
Proof.
  apply (proj2 (requests_after_unauthorized Demo.platform (js "/api/media/list")
                  ApiCalls.noOptions Sample.signedIn
                  {| status := 401; json_ := None; stream := None |}
                  eq_refl eq_refl)).
Defined.

End SignedOut.

(** ** The chat page over a whole answer *)

Section ChatAnswer.
Import ChatStore Chat Transcript.

(** X24. When the guard passes and the server answers ok with a body
    whose reading ends, and no error event is delivered, the page ends
    with the user message and the assistant message after the messages
    there were, the assistant message holding the text of the delivered
    text events and the invocations of the delivered function-call events,
    in order. [isStreaming] is false at the end exactly when a "done"
    event was delivered: a body that ends without one leaves it raised. *)
Theorem sendMessage_streams_answer
    (env : Api.Platform) (clock : Clock) (page : Page)
    (conversation : Conversation) (response : Api.Response)
    (reader : Api.ReadableStream) :
  refused page = false →
  currentConversation (store page) = Some conversation →
  Api.fetch env (messageRequest env (conversation_id conversation)
                   (input page) (world page)) = Return response →
  Api.ok response = true →
  Api.stream response = Some reader →
  Api.failure reader = None →
  Forall (λ e, Api.type e ≠ js "error") (Api.delivered env (Api.chunks reader)) →
  messages (store (sendMessage env clock page))
  = messages (store page)
    ++ [userMessage clock (input page);
        recorded (texts (Api.delivered env (Api.chunks reader)))
          (calls (Api.delivered env (Api.chunks reader)))
          (assistantMessage clock)] ∧
  isStreaming (store (sendMessage env clock page))
  = negb (existsb ends (Api.delivered env (Api.chunks reader))).
Proof.
  intros Hguard Hconv Hfetch Hok Hstream Hfail Hall.
  unfold sendMessage. rewrite Hguard, Hconv.
  rewrite (sendMessage_ok_body env onEvent (conversation_id conversation)
             (input page) (world page)
             ([], opened clock (input page) (store page))
             response reader Hfetch Hok Hstream).
  rewrite Hfail.
  change (foldl (λ s e, onEvent e s)
            ([], opened clock (input page) (store page))
            (Api.delivered env (Api.chunks reader)))
    with (handled (Api.delivered env (Api.chunks reader))
            ([], opened clock (input page) (store page))).
  pose proof (handled_flag (Api.delivered env (Api.chunks reader)) []
                (opened clock (input page) (store page))) as Hflag.
  destruct (handled_error_free (Api.delivered env (Api.chunks reader)) []
              (opened clock (input page) (store page))
              (messages (store page) ++ [userMessage clock (input page)])
              (assistantMessage clock) eq_refl eq_refl Hall)
    as [_ Hmsgs].
  destruct (handled (Api.delivered env (Api.chunks reader))
              ([], opened clock (input page) (store page))) as [fc st].
  simpl in *. rewrite Hmsgs, Hflag, <- app_assoc.
  split; [reflexivity|].
  destruct (existsb ends _); reflexivity.
Qed.

Lemma sendMessage_streams_answer_witness :
  let page' := sendMessage Sample.platform Sample.clock (Sample.page "hi" false) in
  content <$> last (messages (store page')) = Some (js "Hello") ∧
  isStreaming (store page') = true.
Proof.
  intros page'.
  assert (Hall : Forall (λ e, Api.type e ≠ js "error")
                   (Api.delivered Sample.platform
                      [take 20 Sample.chatBody; drop 20 Sample.chatBody])).
  { assert (E : Api.delivered Sample.platform
                  [take 20 Sample.chatBody; drop 20 Sample.chatBody]
                = [Sample.textEvent "Hel"; Sample.textEvent "lo"])
      by (vm_compute; reflexivity).
    rewrite E. repeat constructor; vm_compute; discriminate. }
  destruct (sendMessage_streams_answer Sample.platform Sample.clock
              (Sample.page "hi" false) Sample.conversation
              {| Api.status := 200; Api.json_ := None;
                 Api.stream :=
                   Some {| Api.chunks := [take 20 Sample.chatBody;
                                          drop 20 Sample.chatBody];
                           Api.failure := None |} |}
              {| Api.chunks := [take 20 Sample.chatBody; drop 20 Sample.chatBody];
                 Api.failure := None |}
              eq_refl eq_refl eq_refl eq_refl eq_refl eq_refl Hall)
    as [Hmsgs Hflag].
  fold page' in Hmsgs, Hflag. rewrite Hmsgs, Hflag.
  split; vm_compute; reflexivity.
Defined.

End ChatAnswer.

Section ChatStuck.
Import ChatStore Chat Transcript.

(** X25. An answer that is read to its end without a "done" or an
    "error" event leaves the page streaming, and from then on
    [sendMessage] refuses whatever is typed: it is [setStreaming(false)]
    of these two events, or of a thrown request, that lets the next
    message through. *)
Theorem sendMessage_without_done_blocks_the_next
    (env : Api.Platform) (clock clock' : Clock) (page : Page)
    (conversation : Conversation) (response : Api.Response)
    (reader : Api.ReadableStream) (typed : jsstring) :
  refused page = false →
  currentConversation (store page) = Some conversation →
  Api.fetch env (messageRequest env (conversation_id conversation)
                   (input page) (world page)) = Return response →
  Api.ok response = true →
  Api.stream response = Some reader →
  Api.failure reader = None →
  existsb ends (Api.delivered env (Api.chunks reader)) = false →
  let page' := sendMessage env clock page in
  let next := {| store := store page'; input := typed; world := world page' |} in
  isStreaming (store page') = true ∧
  sendMessage env clock' next = next.
Proof.
  intros Hguard Hconv Hfetch Hok Hstream Hfail Hnone page' next.
  assert (Hflag : isStreaming (store page') = true).
  { unfold page', sendMessage. rewrite Hguard, Hconv.
    rewrite (sendMessage_ok_body env onEvent (conversation_id conversation)
               (input page) (world page)
               ([], opened clock (input page) (store page))
               response reader Hfetch Hok Hstream).
    rewrite Hfail.
    change (foldl (λ s e, onEvent e s)
              ([], opened clock (input page) (store page))
              (Api.delivered env (Api.chunks reader)))
      with (handled (Api.delivered env (Api.chunks reader))
              ([], opened clock (input page) (store page))).
    pose proof (handled_flag (Api.delivered env (Api.chunks reader)) []
                  (opened clock (input page) (store page))) as Hf.
    rewrite Hnone in Hf.
    destruct (handled (Api.delivered env (Api.chunks reader))
                ([], opened clock (input page) (store page))) as [fc st].
    exact Hf. }
  split; [exact Hflag|].
  unfold sendMessage.
  assert (Hrefused : refused next = true).
  { unfold refused, next. simpl. rewrite Hflag. apply orb_true_r. }
  rewrite Hrefused. reflexivity.
Qed.

Lemma sendMessage_without_done_blocks_the_next_witness :
  let page' := sendMessage Sample.platform Sample.clock (Sample.page "hi" false) in
  let next := {| store := store page'; input := js "again";
                 world := world page' |} in
  sendMessage Sample.platform Sample.clock next = next.
Proof.
  intros page' next.
  refine (proj2 (sendMessage_without_done_blocks_the_next
    Sample.platform Sample.clock Sample.clock (Sample.page "hi" false)
    Sample.conversation
    {| Api.status := 200; Api.json_ := None;
       Api.stream :=
         Some {| Api.chunks := [take 20 Sample.chatBody; drop 20 Sample.chatBody];
                 Api.failure := None |} |}
    {| Api.chunks := [take 20 Sample.chatBody; drop 20 Sample.chatBody];
       Api.failure := None |}
    (js "again") eq_refl eq_refl eq_refl eq_refl eq_refl eq_refl _)).
  vm_compute. reflexivity.
Defined.

End ChatStuck.

(** * The claims on the text deltas and on the guard *)

(** ** Text deltas between other events *)

Section TextDeltas.
Import ChatStore Chat Transcript.

Lemma texts_spelled (events : list Api.event) :
  texts events
  = concat ((λ e, if bool_decide (Api.type e = js "text")
                  then default [] (Api.content e) else []) <$> events).
Proof.
  induction events as [|e events IH]; [reflexivity|].
  rewrite texts_cons, IH. reflexivity.
Qed.

(** C3. Over every sequence of events without an error event, [onEvent]
    leaves the in-flight assistant message with the contents of the text
    events, joined in the order of arrival, as its content, a text event
    without content counting as empty, whatever function-call, "done" or
    unknown events come between them; the user message and the messages
    before it are as they were. A text event whose content is absent or
    empty changes nothing. *)
Theorem text_deltas_accumulate
    (clock : Clock) (text : jsstring) (st : ChatState)
    (events : list Api.event) :
  Forall (λ e, Api.type e ≠ js "error") events →
  let joined :=
    concat ((λ e, if bool_decide (Api.type e = js "text")
                  then default [] (Api.content e) else []) <$> events) in
  (handled events ([], opened clock text st)).1 = joined ∧
  (∃ recordedCalls,
     messages (handled events ([], opened clock text st)).2
     = messages st
       ++ [{| id := userNow clock; role := user; content := text;
              created_at := userISO clock; function_calls := None |};
           {| id := assistantNow clock + 1; role := assistant;
              content := joined; created_at := assistantISO clock;
              function_calls := recordedCalls |}]) ∧
  (∀ e h, Api.type e = js "text" →
     Api.content e = None ∨ Api.content e = Some [] →
     onEvent e h = h).
Proof.
  intros Hall joined.
  destruct (handled_error_free events [] (opened clock text st)
              (messages st ++ [userMessage clock text])
              (assistantMessage clock) eq_refl eq_refl Hall)
    as [Hfc Hmsgs].
  assert (Hjoined : [] ++ texts events = joined) by apply texts_spelled.
  split; [|split].
  - rewrite Hfc. exact Hjoined.
  - eexists. rewrite Hmsgs, <- app_assoc, Hjoined. reflexivity.
  - intros e [fc st'] Ht Hc. rewrite (onEvent_text e fc st' Ht).
    destruct Hc as [-> | ->]; reflexivity.
Qed.

Lemma text_deltas_accumulate_witness :
  ∃ recordedCalls,
    messages
      (handled [Sample.textEvent "Hel";
                Sample.toolEvent "function_call" "semantic_search";
                Sample.textEvent "lo"]
         ([], opened Sample.clock (js "hi") ChatStore.initial)).2
    = [{| id := 1735689600000; role := user; content := js "hi";
          created_at := js "2025-01-01T00:00:00.000Z";
          function_calls := None |};
       {| id := 1735689600001; role := assistant; content := js "Hello";
          created_at := js "2025-01-01T00:00:00.000Z";
          function_calls := recordedCalls |}].
Proof.
  refine (proj1 (proj2 (text_deltas_accumulate Sample.clock (js "hi")
    ChatStore.initial
    [Sample.textEvent "Hel";
     Sample.toolEvent "function_call" "semantic_search";
     Sample.textEvent "lo"] _))).
  repeat constructor; vm_compute; discriminate.
Defined.

End TextDeltas.

(** ** The guard while an answer is read *)

Section Guard.
Import ChatStore Chat Transcript Midstream.


(** Once every chunk is read and the reader reports the end, the page is
    the one [sendMessage] returns. *)
Lemma reading_complete (env : Api.Platform) (clock : Clock) (page : Page)
    (conversation : Conversation) (response : Api.Response)
    (reader : Api.ReadableStream) :
  refused page = false →
  currentConversation (store page) = Some conversation →
  Api.fetch env (messageRequest env (conversation_id conversation)
                   (input page) (world page)) = Return response →
  Api.ok response = true →
  Api.stream response = Some reader →
  Api.failure reader = None →
  reading env clock page (Api.chunks reader) = sendMessage env clock page.
Proof.
  intros Hguard Hconv Hfetch Hok Hstream Hfail.
  unfold reading, sendMessage. rewrite Hguard, Hconv.
  rewrite (sendMessage_ok_body env onEvent (conversation_id conversation)
             (input page) (world page)
             ([], opened clock (input page) (store page))
             response reader Hfetch Hok Hstream).
  rewrite Hfail, readLoop_delivered.
  destruct (foldl _ _ _) as [fc st]. reflexivity.
Qed.




End Guard.
